(** * Relationship-based access control over a property graph

    A shallow embedding of the API Lambda of the pet-videos sample
    (database.py, permissions.py, classtype.py, main.py) and the properties
    of its authorization-resolution core.

    - [Gremlin]: the property graph and the traversal steps the queries of
      database.py are written with.
    - [Directory], [Video], [database]: the dataclasses of classtype.py and
      the hierarchy queries.
    - [Py], [permissions]: Python values, the entity-context builder and the
      decision request.
    - [main]: the Lambda handler, with the calls it makes on the graph store
      and on the policy-decision engine recorded in a trace.
    - [Spec]: the resolver as the specification words it, with which the
      queries are compared.

    Printing and [debug_object] only log and are left out. *)

From Stdlib Require Import List String Ascii Bool Arith ZArith Lia.
Import ListNotations.
Open Scope string_scope.
Open Scope list_scope.
Set Warnings "-register-all".

(** ** Outcomes of Python code *)

(** The exceptions the modelled code can meet.  [str_exn] is Python's
    [str(e)]. *)
Inductive exn : Type :=
| StopIteration                      (* [.next()] on an exhausted traversal *)
| GremlinServerError (msg : string)  (* the graph store cannot be reached *)
| KeyError (key : string)
| IndexError (msg : string)
| ValueError (msg : string)
| UnboundLocalError (var : string)
| JWTError (msg : string)            (* jose.JWTError, the class main.py catches *)
| ClientError (msg : string).        (* any failure of an external client or library *)

Definition str_exn (e : exn) : string :=
  match e with
  | StopIteration => ""
  | GremlinServerError msg => msg
  | KeyError key => "'" ++ key ++ "'"
  | IndexError msg => msg
  | ValueError msg => msg
  | UnboundLocalError var =>
      "cannot access local variable '" ++ var
        ++ "' where it is not associated with a value"
  | JWTError msg => msg
  | ClientError msg => msg
  end.

(** A computation returns, raises, or is still running when the fuel that
    bounds the iterations of a [repeat] step is used up. *)
Inductive res (A : Type) : Type :=
| Ok (a : A)
| Raise (e : exn)
| OutOfFuel.
Arguments Ok {A} a.
Arguments Raise {A} e.
Arguments OutOfFuel {A}.

Definition res_bind {A B} (m : res A) (f : A -> res B) : res B :=
  match m with
  | Ok a => f a
  | Raise e => Raise e
  | OutOfFuel => OutOfFuel
  end.

Declare Scope res_scope.
Delimit Scope res_scope with res.
Notation "x <- m ;; k" := (res_bind m (fun x => k))
  (at level 61, m at next level, right associativity) : res_scope.

(** ** The property graph and the Gremlin steps *)

Module Gremlin.

(** Property values: the sample stores strings (names, ids) and booleans
    ([isPublic]). *)
Inductive propval : Type :=
| PStr (s : string)
| PBool (b : bool).

Definition propval_eqb (x y : propval) : bool :=
  match x, y with
  | PStr s, PStr t => String.eqb s t
  | PBool a, PBool b => Bool.eqb a b
  | _, _ => false
  end.

(** A vertex has an identity, a label and a list of properties; a key may
    occur several times (Neptune's default cardinality is set). *)
Record vertex : Type := mkV {
  vid : nat;
  vlabel : string;
  vprops : list (string * propval)
}.

Record edge : Type := mkE {
  elabel : string;
  esrc : nat;
  edst : nat
}.

Record graph : Type := mkG {
  vertices : list vertex;
  edges : list edge
}.

(** The remote traversal source [g]: connected to a graph, or broken, in
    which case every submitted traversal raises. *)
Inductive remote : Type :=
| Up (g : graph)
| Down (msg : string).

Definition same_vertex (v w : vertex) : bool := Nat.eqb (vid v) (vid w).

(** Filter steps. *)
Definition hasLabel (l : string) (v : vertex) : bool := String.eqb (vlabel v) l.

Definition has (key : string) (x : propval) (v : vertex) : bool :=
  existsb (fun kv => String.eqb (fst kv) key && propval_eqb (snd kv) x) (vprops v).

(** [values(key)]: every value stored under [key], nothing for a vertex
    without the property. *)
Definition values1 (key : string) (v : vertex) : list propval :=
  map snd (filter (fun kv => String.eqb (fst kv) key) (vprops v)).

Definition values (key : string) (ts : list vertex) : list propval :=
  flat_map (values1 key) ts.

(** One-hop steps, in edge order. *)
Definition lookup (g : graph) (i : nat) : list vertex :=
  filter (fun w => Nat.eqb (vid w) i) (vertices g).

Definition out (l : string) (g : graph) (v : vertex) : list vertex :=
  flat_map (fun e => if String.eqb (elabel e) l && Nat.eqb (esrc e) (vid v)
                     then lookup g (edst e) else [])
           (edges g).

Definition in_ (l : string) (g : graph) (v : vertex) : list vertex :=
  flat_map (fun e => if String.eqb (elabel e) l && Nat.eqb (edst e) (vid v)
                     then lookup g (esrc e) else [])
           (edges g).

(** [dedup()]: keeps the first traverser at each vertex; vertices are
    compared by identity. *)
Fixpoint dedup (ts : list vertex) : list vertex :=
  match ts with
  | [] => []
  | t :: r => t :: filter (fun w => negb (same_vertex w t)) (dedup r)
  end.

(** [repeat(body).until(stop)] is a do-while loop: every traverser takes
    the body first; those that then satisfy [stop] leave the loop, the
    others go round again, and a traverser for which the body yields
    nothing disappears.  There is no [emit()], so only the traversers that
    satisfied [stop] come out.  The loop has no bound of its own: [fuel]
    bounds the rounds, and [None] means that traversers were still in the
    loop when it ran out (a time limit of the graph store is no part of the
code).  Several traversers are advanced level by level. *)
Fixpoint repeat_until (fuel : nat) (body : vertex -> list vertex)
         (stop : vertex -> bool) (ts : list vertex) {struct fuel}
  : option (list vertex) :=
  match ts with
  | [] => Some []
  | _ :: _ =>
      match fuel with
      | O => None
      | S fuel' =>
          let next := flat_map body ts in
          match repeat_until fuel' body stop (filter (fun v => negb (stop v)) next) with
          | Some r => Some (filter stop next ++ r)
          | None => None
          end
      end
  end.

(** Anonymous traversals ([__. ...]) applied to one traverser. *)
Definition traversal : Type := nat -> graph -> vertex -> option (list vertex).

Definition hop (h : graph -> vertex -> list vertex) : traversal :=
  fun _ g v => Some (h g v).

Definition repeat_ (body : graph -> vertex -> list vertex)
           (stop : vertex -> bool) : traversal :=
  fun fuel g v => repeat_until fuel (body g) stop [v].

Definition then_ (t : traversal) (h : graph -> vertex -> list vertex) : traversal :=
  fun fuel g v =>
    match t fuel g v with
    | Some r => Some (flat_map (h g) r)
    | None => None
    end.

(** [union(a, b)]: for each incoming traverser the results of [a], then
    those of [b]. *)
Fixpoint union (a b : traversal) (fuel : nat) (g : graph) (ts : list vertex)
  : option (list vertex) :=
  match ts with
  | [] => Some []
  | t :: r =>
      match a fuel g t, b fuel g t, union a b fuel g r with
      | Some x, Some y, Some z => Some (x ++ y ++ z)
      | _, _, _ => None
      end
  end.

(** Terminal steps. *)
Definition toList {A} (rc : remote) (t : graph -> option (list A)) : res (list A) :=
  match rc with
  | Down msg => Raise (GremlinServerError msg)
  | Up g => match t g with
            | Some l => Ok l
            | None => OutOfFuel
            end
  end.

Definition next {A} (rc : remote) (t : graph -> option (list A)) : res A :=
  match rc with
  | Down msg => Raise (GremlinServerError msg)
  | Up g => match t g with
            | Some (x :: _) => Ok x
            | Some [] => Raise StopIteration
            | None => OutOfFuel
            end
  end.

End Gremlin.
Import Gremlin.

(** ** classtype.py *)

Module Directory.
Record t : Type := mk {
  directory_id : propval;
  directory_name : string;
  directory_vertex : vertex;
  owner_id : list propval;
  owner_name : list propval;
  parents_id : list propval;
  isPublic : propval
}.
End Directory.

Module Video.
Record t : Type := mk {
  video_id : propval;
  video_name : string;
  video_vertex : vertex;
  owner_id : list propval;
  owner_name : list propval;
  parents_id : list propval;
  isPublic : propval
}.
End Video.

(** ** database.py *)

Module database.

Definition ROOT : propval := PStr "petVideosDirectory".

(** [g.V().hasLabel(label).has(idkey, id)] *)
Definition resource (label idkey : string) (id : propval) (g : graph) : list vertex :=
  filter (has idkey id) (filter (hasLabel label) (vertices g)).

(** [....union(__.in_('OWNER'),
               __.repeat(__.out('MEMBEROF')).until(__.has('name', 'petVideosDirectory')).in_('OWNER'))
        .dedup()], the vertices behind [owner_id] and [owner_name]. *)
Definition owners (label idkey : string) (id : propval) (fuel : nat) (g : graph)
  : option (list vertex) :=
  option_map dedup
    (union (hop (in_ "OWNER"))
           (then_ (repeat_ (out "MEMBEROF") (has "name" ROOT)) (in_ "OWNER"))
           fuel g (resource label idkey id g)).

(** [....union(__.out('MEMBEROF'),
               __.repeat(__.out('MEMBEROF')).until(__.has('name', 'petVideosDirectory')))
        .dedup()], the vertices behind [parents_id]. *)
Definition parents (label idkey : string) (id : propval) (fuel : nat) (g : graph)
  : option (list vertex) :=
  option_map dedup
    (union (hop (out "MEMBEROF"))
           (repeat_ (out "MEMBEROF") (has "name" ROOT))
           fuel g (resource label idkey id g)).

Section Queries.
Variable fuel : nat.
Variable g : remote.
Local Open Scope res_scope.

Definition query_directory_info (directory_name : string) : res (option Directory.t) :=
  directoryExists <- toList g (fun g =>
    Some (filter (has "name" (PStr directory_name)) (filter (hasLabel "directory") (vertices g)))) ;;
  match directoryExists with
  | [] => Ok None
  | _ :: _ =>
      directory_id <- next g (fun g =>
        Some (values "directoryId"
                (filter (has "name" (PStr directory_name))
                        (filter (hasLabel "directory") (vertices g))))) ;;
      directory_vertex <- next g (fun g =>
        Some (filter (has "name" (PStr directory_name))
                     (resource "directory" "directoryId" directory_id g))) ;;
      owner_id <- toList g (fun g =>
        option_map (values "userId") (owners "directory" "directoryId" directory_id fuel g)) ;;
      owner_name <- toList g (fun g =>
        option_map (values "name") (owners "directory" "directoryId" directory_id fuel g)) ;;
      parents_id <- toList g (fun g =>
        option_map (values "directoryId") (parents "directory" "directoryId" directory_id fuel g)) ;;
      isPublic <- next g (fun g =>
        Some (values "isPublic"
                (filter (has "name" (PStr directory_name))
                        (resource "directory" "directoryId" directory_id g)))) ;;
      Ok (Some (Directory.mk directory_id directory_name directory_vertex
                             owner_id owner_name parents_id isPublic))
  end.

Definition query_video_info (video_name : string) : res (option Video.t) :=
  videoExists <- toList g (fun g =>
    Some (filter (has "name" (PStr video_name)) (filter (hasLabel "video") (vertices g)))) ;;
  match videoExists with
  | [] => Ok None
  | _ :: _ =>
      video_id <- next g (fun g =>
        Some (values "videoId"
                (filter (has "name" (PStr video_name))
                        (filter (hasLabel "video") (vertices g))))) ;;
      video_vertex <- next g (fun g =>
        Some (filter (has "name" (PStr video_name))
                     (resource "video" "videoId" video_id g))) ;;
      owner_id <- toList g (fun g =>
        option_map (values "userId") (owners "video" "videoId" video_id fuel g)) ;;
      owner_name <- toList g (fun g =>
        option_map (values "name") (owners "video" "videoId" video_id fuel g)) ;;
      parents_id <- toList g (fun g =>
        option_map (values "directoryId") (parents "video" "videoId" video_id fuel g)) ;;
      isPublic <- next g (fun g =>
        Some (values "isPublic"
                (filter (has "name" (PStr video_name))
                        (resource "video" "videoId" video_id g)))) ;;
      Ok (Some (Video.mk video_id video_name video_vertex
                         owner_id owner_name parents_id isPublic))
  end.

End Queries.

End database.

(** ** Python values *)

Module Py.

(** The values [attribute_value] can be applied to and the dictionaries of
    the decision request.  A set is listed in its iteration order, a float
    is given by its bit pattern, a dictionary has string keys and keeps
    insertion order. *)
Inductive pyval : Type :=
| PyNone
| PyBool (b : bool)
| PyInt (z : Z)
| PyFloat (bits : Z)
| PyStr (s : string)
| PyList (l : list pyval)
| PySet (l : list pyval)
| PyTuple (l : list pyval)
| PyDict (items : list (string * pyval)).

Definition of_prop (x : propval) : pyval :=
  match x with
  | PStr s => PyStr s
  | PBool b => PyBool b
  end.

(** [str(x)] of a property value. *)
Definition str (x : propval) : string :=
  match x with
  | PStr s => s
  | PBool true => "True"
  | PBool false => "False"
  end.

(** [type(value)] as an f-string prints it. *)
Definition type_repr (value : pyval) : string :=
  "<class '" ++
  match value with
  | PyNone => "NoneType"
  | PyBool _ => "bool"
  | PyInt _ => "int"
  | PyFloat _ => "float"
  | PyStr _ => "str"
  | PyList _ => "list"
  | PySet _ => "set"
  | PyTuple _ => "tuple"
  | PyDict _ => "dict"
  end ++ "'>".

(** [d[key]], [d.get(key)] and [d[key] = v] on the items of a dictionary. *)
Fixpoint get {A} (key : string) (items : list (string * A)) : option A :=
  match items with
  | [] => None
  | (k, v) :: r => if String.eqb k key then Some v else get key r
  end.

Definition getitem {A} (items : list (string * A)) (key : string) : res A :=
  match get key items with
  | Some v => Ok v
  | None => Raise (KeyError key)
  end.

Fixpoint setitem {A} (key : string) (v : A) (items : list (string * A))
  : list (string * A) :=
  match items with
  | [] => [(key, v)]
  | (k, w) :: r => if String.eqb k key then (k, v) :: r else (k, w) :: setitem key v r
  end.

(** [s.split(sep)] for a one-character separator, and [l[i]]. *)
Fixpoint split (sep : ascii) (s : string) : list string :=
  match s with
  | EmptyString => [EmptyString]
  | String c r =>
      if Ascii.eqb c sep then EmptyString :: split sep r
      else match split sep r with
           | [] => [String c EmptyString]
           | h :: t => String c h :: t
           end
  end.

Definition index {A} (l : list A) (i : nat) : res A :=
  match nth_error l i with
  | Some x => Ok x
  | None => Raise (IndexError "list index out of range")
  end.

End Py.
Import Py.

(** ** Effects: the calls that leave the Lambda *)

Inductive call : Type :=
| QueryDirectoryInfo (directory_name : string)   (* database.query_directory_info *)
| QueryVideoInfo (video_name : string)           (* database.query_video_info *)
| IsAuthorizedWithToken (args : pyval).          (* avp.is_authorized_with_token *)

(** A computation with its trace of calls, in order. *)
Definition W (A : Type) : Type := (list call * res A)%type.

Definition ret {A} (a : A) : W A := ([], Ok a).

Definition raise {A} (e : exn) : W A := ([], Raise e).

Definition lift {A} (r : res A) : W A := ([], r).

Definition bind {A B} (m : W A) (f : A -> W B) : W B :=
  match m with
  | (t, Ok a) => let (t', r) := f a in (t ++ t', r)
  | (t, Raise e) => (t, Raise e)
  | (t, OutOfFuel) => (t, OutOfFuel)
  end.

(** [try: m  except ...: h e] for the exceptions [catches] selects. *)
Definition try_except {A} (m : W A) (catches : exn -> bool) (h : exn -> W A) : W A :=
  match m with
  | (t, Raise e) => if catches e then let (t', r) := h e in (t ++ t', r) else (t, Raise e)
  | _ => m
  end.

Definition of_sum {A} (r : exn + A) : res A :=
  match r with
  | inl e => Raise e
  | inr a => Ok a
  end.

Declare Scope W_scope.
Delimit Scope W_scope with W.
Notation "x <- m ;; k" := (bind m (fun x => k))
  (at level 61, m at next level, right associativity) : W_scope.
Notation "' pat <- m ;; k" := (bind m (fun x => match x with pat => k end))
  (at level 61, pat pattern, m at next level, right associativity) : W_scope.

(** The answer of the policy-decision engine: the verdict and the ids of the
    determining policies. *)
Record avp_response : Type := mkResp {
  decision : string;
  determiningPolicies : list string
}.

(** ** permissions.py *)

Module permissions.

Definition entity (entity_type : string) (entity_id : propval) : pyval :=
  PyDict [("entityType", PyStr ("PetVideosApp::" ++ entity_type));
          ("entityId", PyStr (str entity_id))].

Definition entity_set (entity_type : string) (entity_ids : list propval) : list pyval :=
  map (fun entity_id =>
         PyDict [("entityType", PyStr ("PetVideosApp::" ++ entity_type));
                 ("entityId", PyStr (str entity_id))])
      entity_ids.

Fixpoint attribute_value (value : pyval) : res pyval :=
  let fix each (l : list pyval) : res (list pyval) :=
    match l with
    | [] => Ok []
    | v :: r =>
        match attribute_value v with
        | Ok x => match each r with
                  | Ok xs => Ok (x :: xs)
                  | Raise e => Raise e
                  | OutOfFuel => OutOfFuel
                  end
        | Raise e => Raise e
        | OutOfFuel => OutOfFuel
        end
    end in
  match value with
  | PyStr _ => Ok (PyDict [("string", value)])
  | PyBool _ => Ok (PyDict [("boolean", value)])
  | PySet l | PyList l =>
      match each l with
      | Ok xs => Ok (PyDict [("set", PyList xs)])
      | Raise e => Raise e
      | OutOfFuel => OutOfFuel
      end
  | PyDict _ => Ok (PyDict [("entityIdentifier", value)])
  | _ => Raise (ValueError ("Unknown attribute value type: " ++ type_repr value))
  end.

(** [attributes], a dictionary comprehension over the keyword arguments,
    whose keys are distinct. *)
Fixpoint attributes (kwargs : list (string * pyval)) : res (list (string * pyval)) :=
  match kwargs with
  | [] => Ok []
  | (key, value) :: r =>
      (x <- attribute_value value ;;
       xs <- attributes r ;;
       Ok ((key, x) :: xs))%res
  end.

Section Checks.
Variable POLICY_STORE_ID : string.
(** [avp.is_authorized_with_token]: the policy-decision engine, which
    answers or raises. *)
Variable is_authorized_with_token : pyval -> exn + avp_response.
Local Open Scope W_scope.

Definition avp_call (args : pyval) : W avp_response :=
  ([IsAuthorizedWithToken args], of_sum (is_authorized_with_token args)).

Definition permissions_check_token_directory
           (token action : string) (video_dir : option Directory.t) : W avp_response :=
  let action_entity :=
    PyDict [("actionType", PyStr "PetVideosApp::Action"); ("actionId", PyStr action)] in
  let resource_entity := entity "Application" (PStr "PetVideosApp") in
  let args := [("policyStoreId", PyStr POLICY_STORE_ID);
               ("identityToken", PyStr token);
               ("action", action_entity);
               ("resource", resource_entity)] in
  '(args, resource_entity) <-
    match video_dir with
    | Some video_dir =>
        let list_entity := entity "Directory" (Directory.directory_id video_dir) in
        let resource_entity := list_entity in
        let parents_entity := entity_set "Directory" (Directory.parents_id video_dir) in
        owner <- lift (attribute_value
                         (PyList (entity_set "User" (Directory.owner_id video_dir)))) ;;
        isPublic <- lift (attribute_value (of_prop (Directory.isPublic video_dir))) ;;
        let entities :=
          PyDict [("entityList",
                   PyList [PyDict [("identifier", list_entity);
                                   ("attributes", PyDict [("owner", owner);
                                                          ("isPublic", isPublic)]);
                                   ("parents", PyList parents_entity)]])] in
        ret (setitem "entities" entities args, resource_entity)
    | None => ret (args, resource_entity)
    end ;;
  let args := setitem "resource" resource_entity args in
  resp <- avp_call (PyDict args) ;;
  ret (mkResp (decision resp) (determiningPolicies resp)).

Definition permissions_check_token_video
           (token action : string) (video : option Video.t) : W avp_response :=
  let action_entity :=
    PyDict [("actionType", PyStr "PetVideosApp::Action"); ("actionId", PyStr action)] in
  let resource_entity := entity "Application" (PStr "PetVideosApp") in
  let args := [("policyStoreId", PyStr POLICY_STORE_ID);
               ("identityToken", PyStr token);
               ("action", action_entity);
               ("resource", resource_entity)] in
  '(args, resource_entity) <-
    match video with
    | Some video =>
        let list_entity := entity "Video" (Video.video_id video) in
        let resource_entity := list_entity in
        let parents_entity := entity_set "Directory" (Video.parents_id video) in
        owner <- lift (attribute_value
                         (PyList (entity_set "User" (Video.owner_id video)))) ;;
        isPublic <- lift (attribute_value (of_prop (Video.isPublic video))) ;;
        let entities :=
          PyDict [("entityList",
                   PyList [PyDict [("identifier", list_entity);
                                   ("attributes", PyDict [("owner", owner);
                                                          ("isPublic", isPublic)]);
                                   ("parents", PyList parents_entity)]])] in
        ret (setitem "entities" entities args, resource_entity)
    | None => ret (args, resource_entity)
    end ;;
  let args := setitem "resource" resource_entity args in
  resp <- avp_call (PyDict args) ;;
  ret (mkResp (decision resp) (determiningPolicies resp)).

End Checks.

End permissions.

(** ** main.py *)

Module main.

(** The API Gateway proxy event, with the fields the handler reads.
    [body] is the raw request body ([None] when there is none) and
    [queryStringParameters] the query string ([None] when there is none);
    names and parameters are strings. *)
Record event : Type := mkEvent {
  resource : string;
  httpMethod : string;
  headers : list (string * string);
  body : option string;
  queryStringParameters : option (list (string * string))
}.

(** What [format_response] builds; [resp_body] is the object handed to
    [json.dumps]. *)
Record response : Type := mkResponse {
  statusCode : Z;
  resp_headers : list (string * string);
  resp_body : list (string * string)
}.

Definition format_response (body : list (string * string)) (status_code : Z) : response :=
  mkResponse status_code
             [("Content-Type", "application/json"); ("Access-Control-Allow-Origin", "*")]
             body.

Definition ACTIONS : list ((string * string) * string) :=
  [ (("/directory/get", "GET"), "ViewDirectory");
    (("/video/get", "GET"), "ViewVideo") ].

(** [ACTIONS.get(key, default)] *)
Definition ACTIONS_get (key : string * string) (default : string) : string :=
  match find (fun kv => String.eqb (fst (fst kv)) (fst key)
                        && String.eqb (snd (fst kv)) (snd key)) ACTIONS with
  | Some kv => snd kv
  | None => default
  end.

(** Truth value of a string and of a string-or-None. *)
Definition truthy (s : string) : bool := negb (String.eqb s "").

Definition truthy_opt (s : option string) : bool :=
  match s with
  | Some s => truthy s
  | None => false
  end.

Definition is_JWTError (e : exn) : bool :=
  match e with
  | JWTError _ => true
  | _ => false
  end.

(** Reading a local variable that no executed statement has bound. *)
Definition read_local {A} (var : string) (x : option A) : W A :=
  match x with
  | Some a => ret a
  | None => raise (UnboundLocalError var)
  end.

Section Handler.
(** The environment variable, the two libraries the handler calls, the
    policy-decision engine and the graph store; [fuel] bounds the rounds
    of each [repeat] step of the store. *)
Variable POLICY_STORE_ID : string.
Variable jwt_decode : string -> exn + list (string * string).
Variable json_loads : string -> exn + list (string * string).
Variable is_authorized_with_token : pyval -> exn + avp_response.
Variable fuel : nat.
Variable g : remote.
Local Open Scope W_scope.

Definition query_directory_info (directory_name : string) : W (option Directory.t) :=
  ([QueryDirectoryInfo directory_name], database.query_directory_info fuel g directory_name).

Definition query_video_info (video_name : string) : W (option Video.t) :=
  ([QueryVideoInfo video_name], database.query_video_info fuel g video_name).

Definition return_ (r : response) : W (option response) := ret (Some r).

(** The two branches on [action] at the end of the handler. *)
Definition view_directory (id_token action : string)
           (video_dir : option (option Directory.t)) : W (option response) :=
  try_except
    (video_dir <- read_local "video_dir" video_dir ;;
     response <- permissions.permissions_check_token_directory
                   POLICY_STORE_ID is_authorized_with_token id_token action video_dir ;;
     if String.eqb (decision response) "ALLOW" then
       determining_policies <- lift (index (determiningPolicies response) 0) ;;
       return_ (format_response
                  [("message", ("Access allowed -- determining policy id is "
                                  ++ determining_policies)%string)] 200)
     else
       return_ (format_response
                  [("message", "Access denied -- permissions check failed")] 401))
    (fun _ => true)
    (fun e => return_ (format_response
                         [("message", ("Access denied -- permissions check failed - "
                                         ++ str_exn e)%string)] 401)).

Definition view_video (id_token action : string)
           (video : option (option Video.t)) : W (option response) :=
  try_except
    (video <- read_local "video" video ;;
     response <- permissions.permissions_check_token_video
                   POLICY_STORE_ID is_authorized_with_token id_token action video ;;
     if String.eqb (decision response) "ALLOW" then
       determining_policies <- lift (index (determiningPolicies response) 0) ;;
       return_ (format_response
                  [("message", ("Access allowed -- determining policy id is "
                                  ++ determining_policies)%string)] 200)
     else
       return_ (format_response
                  [("message", "Access denied -- permissions check failed")] 401))
    (fun _ => true)
    (fun e => return_ (format_response
                         [("message", ("Access denied -- permissions check failed - "
                                         ++ str_exn e)%string)] 401)).

(** The blocks of [handler(event, context)], one per comment of the
    source.  Each [return] of the source is a [return_]; a block that
    may return early yields [Some] response, and the statements after it
    run on [None]. *)

(* Get the information about the requested action *)
Definition requested_action (event : event) : string :=
  let resource := resource event in
  let method := httpMethod event in
  ACTIONS_get (resource, method) "Unknown".

(* Get the information about the principal from the JWT token *)
Definition principal_of_token (event : event) : W (option response) :=
  authorization <- lift (getitem (headers event) "Authorization") ;;
  access_token <- lift (index (split " " authorization) 1) ;;
  try_except
    (jwt_claims <- lift (of_sum (jwt_decode access_token)) ;;
     iss <- lift (getitem jwt_claims "iss") ;;
     let user_pool_id := last (split "/" iss) "" in
     sub <- lift (getitem jwt_claims "sub") ;;
     let principal := (user_pool_id ++ "|" ++ sub)%string in
     ret None)
    is_JWTError
    (fun e => return_ (format_response [("message", "Access denied -- token broken")] 401)).

(* Variables that exist only on some requests *)
Definition request_names (event : event) : W (option string * option string) :=
  if truthy_opt (body event) then
    body <- lift (of_sum (json_loads (match body event with Some s => s | None => "" end))) ;;
    ret (get "directoryName" body, get "videoName" body)
  else
    match queryStringParameters event with
    | Some (p :: q) => ret (get "directoryName" (p :: q), get "videoName" (p :: q))
    | _ => ret (None, None)
    end.

Definition name_of (s : option string) : string :=
  match s with
  | Some s => s
  | None => ""
  end.

(* Check if the directory and video exists *)
Definition check_exists (directory_name video_name : option string) : W (option response) :=
  if truthy_opt directory_name then
    d <- query_directory_info (name_of directory_name) ;;
    match d with
    | None => return_ (format_response
                         [("message", "Invalid input -- directory doesn't exist")] 400)
    | Some _ => ret None
    end
  else if truthy_opt video_name then
    v <- query_video_info (name_of video_name) ;;
    match v with
    | None => return_ (format_response
                         [("message", "Invalid input -- video doesn't exist")] 400)
    | Some _ => ret None
    end
  else ret None.

(** The local variables [video_dir] and [video], each unbound ([None])
    until its assignment runs. *)
Definition locals : Type := (option (option Directory.t) * option (option Video.t))%type.

(** The [try] block that resolves the hierarchy. *)
Definition resolve (directory_name video_name : option string)
  : W (locals * option response) :=
  try_except
    (if truthy_opt directory_name then
       video_dir <- query_directory_info (name_of directory_name) ;;
       ret (Some video_dir, None, None)
     else if truthy_opt video_name then
       video <- query_video_info (name_of video_name) ;;
       ret (None, Some video, None)
     else ret (None, None, None))
    is_JWTError
    (fun e => ret (None, None,
                   Some (format_response
                           [("message", "Access denied -- token broken")] 401))).

(** The handler from the point where the names are known. *)
Definition authorize (event : event) (action : string)
           (directory_name video_name : option string) : W (option response) :=
  missing <- check_exists directory_name video_name ;;
  match missing with
  | Some r => return_ r
  | None =>
      let id_token := get "id-token" (headers event) in
      if negb (truthy_opt id_token) then
        return_ (format_response
                   [("message", "Access denied -- no identity token provided")] 401)
      else
        '(video_dir, video, broken) <- resolve directory_name video_name ;;
        match broken with
        | Some r => return_ r
        | None =>
            if String.eqb action "ViewDirectory" then
              view_directory (name_of id_token) action video_dir
            else if String.eqb action "ViewVideo" then
              view_video (name_of id_token) action video
            else ret None
        end
  end.

Definition handler (event : event) : W (option response) :=
  (* Check if the environment variables are set *)
  if negb (truthy POLICY_STORE_ID) then
    return_ (format_response
               [("message",
                 "API Lambda environment variables not set. Please set POLICY_STORE_ID.")]
               500)
  else
    let action := requested_action event in
    if String.eqb action "Unknown" then
      return_ (format_response [("message", "Unknown API call")] 404)
    else
      broken <- principal_of_token event ;;
      match broken with
      | Some r => return_ r
      | None =>
          '(directory_name, video_name) <- request_names event ;;
          authorize event action directory_name video_name
      end.

(** A request that passes the dispatcher's part of the handler
    (environment, route, access token, names) and enters the
    authorization check with [action] and the two names. *)
Definition enters_check (event : event) (action : string)
           (directory_name video_name : option string) : Prop :=
  truthy POLICY_STORE_ID = true
  /\ requested_action event = action
  /\ String.eqb action "Unknown" = false
  /\ principal_of_token event = ([], Ok None)
  /\ request_names event = ([], Ok (directory_name, video_name)).

End Handler.

End main.

(** ** Sample graphs *)

Module Samples.

Definition user (i : nat) (name userId : string) : vertex :=
  mkV i "user" [("name", PStr name); ("userId", PStr userId)].

Definition directory (i : nat) (name directoryId ownerId ownerName : string)
           (isPublic : bool) : vertex :=
  mkV i "directory" [("name", PStr name); ("directoryId", PStr directoryId);
                     ("ownerId", PStr ownerId); ("ownerName", PStr ownerName);
                     ("isPublic", PBool isPublic)].

Definition video (i : nat) (name videoId ownerId ownerName : string)
           (isPublic : bool) : vertex :=
  mkV i "video" [("name", PStr name); ("videoId", PStr videoId);
                 ("ownerId", PStr ownerId); ("ownerName", PStr ownerName);
                 ("isPublic", PBool isPublic)].

Definition alice := user 1 "alice" "pool|alice".
Definition bob := user 2 "bob" "pool|bob".
Definition charlie := user 3 "charlie" "pool|charlie".
Definition aliceVideosDir :=
  directory 4 "aliceVideosDirectory" "dir-alice" "pool|alice" "alice" false.
Definition bobVideosDir :=
  directory 5 "bobVideosDirectory" "dir-bob" "pool|bob" "bob" false.
Definition petVideosDir :=
  directory 6 "petVideosDirectory" "dir-pet" "pool|charlie" "charlie" false.
Definition aliceCatVideo := video 7 "aliceCatVideo.mp4" "vid-cat" "pool|alice" "alice" false.
Definition bobDogVideo := video 8 "bobDogVideo.mp4" "vid-dog" "pool|bob" "bob" false.

(** The graph the bootstrap Lambda creates (avp-rebac-bootstraplambda),
    vertices and edges in the order it adds them. *)
Definition bootstrap : graph :=
  mkG [alice; bob; charlie; aliceVideosDir; bobVideosDir; petVideosDir;
       aliceCatVideo; bobDogVideo]
      [mkE "OWNER" 3 6; mkE "MEMBEROF" 4 6; mkE "MEMBEROF" 5 6;
       mkE "OWNER" 1 4; mkE "MEMBEROF" 7 4; mkE "OWNER" 2 5;
       mkE "MEMBEROF" 8 5; mkE "OWNER" 1 7; mkE "OWNER" 2 8].

(** Bob's video filed in Alice's directory: the ancestor in the middle has
    an owner of its own. *)
Definition guest : graph :=
  mkG [alice; bob; charlie; aliceVideosDir; petVideosDir; bobDogVideo]
      [mkE "OWNER" 3 6; mkE "MEMBEROF" 4 6; mkE "OWNER" 1 4;
       mkE "MEMBEROF" 8 4; mkE "OWNER" 2 8].

(** A directory three levels below the root:
    tricks -> bobVideosDirectory -> aliceVideosDirectory -> petVideosDirectory. *)
Definition tricksDir := directory 9 "tricksDirectory" "dir-tricks" "pool|bob" "bob" false.

Definition deep : graph :=
  mkG [alice; bob; charlie; aliceVideosDir; bobVideosDir; petVideosDir; tricksDir]
      [mkE "OWNER" 3 6; mkE "MEMBEROF" 4 6; mkE "MEMBEROF" 5 4;
       mkE "OWNER" 1 4; mkE "OWNER" 2 5; mkE "MEMBEROF" 9 5; mkE "OWNER" 2 9].

(** Two directories that are members of each other, with no root above. *)
Definition cyclic : graph :=
  mkG [alice; bob; aliceVideosDir; bobVideosDir]
      [mkE "MEMBEROF" 4 5; mkE "MEMBEROF" 5 4; mkE "OWNER" 1 4; mkE "OWNER" 2 5].


End Samples.

(** ** The resolver as the specification words it *)

Module Spec.

(** These definitions follow the specification's Hierarchy Resolver
    (its section 4.2), not the code: they are what the queries of
    database.py are compared with. *)
Inductive failure : Type :=
| MalformedHierarchy
| CycleDetected.

(** Steps 3 to 5: while the cursor has an outgoing MEMBEROF edge and is
    not the designated root, move to its one parent; more than one parent
    is a malformed hierarchy, more than [maxDepth] hops a cycle. *)
Fixpoint ancestorChain (maxDepth : nat) (g : graph) (cursor : vertex)
  : failure + list vertex :=
  if has "name" database.ROOT cursor then inr []
  else
    match out "MEMBEROF" g cursor with
    | [] => inr []
    | [parent] =>
        match maxDepth with
        | O => inl CycleDetected
        | S d =>
            match ancestorChain d g parent with
            | inr chain => inr (parent :: chain)
            | inl f => inl f
            end
        end
    | _ :: _ :: _ => inl MalformedHierarchy
    end.

(** Steps 2 and 4: the direct owners of the resource and of every ancestor,
    deduplicated, in order of discovery. *)
Definition owners (g : graph) (r : vertex) (chain : list vertex) : list vertex :=
  dedup (in_ "OWNER" g r ++ flat_map (in_ "OWNER" g) chain).

End Spec.

(** ** Well-formedness conditions on the graph *)

(** The name [name] designates the resource [r] among the vertices labelled
    [label]: [r] is the first vertex of that name, [id] its identifier under
    [idkey], no other vertex has this identifier, and [isPublic] is its
    flag. *)
Definition designates (g : graph) (label idkey name : string)
           (r : vertex) (id isPublic : propval) : Prop :=
  hd_error (filter (has "name" (PStr name)) (filter (hasLabel label) (vertices g))) = Some r
  /\ hd_error (values1 idkey r) = Some id
  /\ database.resource label idkey id g = [r]
  /\ hd_error (values1 "isPublic" r) = Some isPublic.

(** The ancestors of a resource along single parents: its one parent, then
    the parent's chain upwards, which ends at the first directory named as the
    root or at a directory without parent.  The resource itself is never the
    end of the chain: its own name plays no part.  For a resource that is not
    named as the root this is [Spec.ancestorChain] with one more hop
    allowed. *)
Definition ancestors (maxDepth : nat) (g : graph) (r : vertex)
  : Spec.failure + list vertex :=
  match out "MEMBEROF" g r with
  | [] => inr []
  | [parent] =>
      match Spec.ancestorChain maxDepth g parent with
      | inr chain => inr (parent :: chain)
      | inl f => inl f
      end
  | _ :: _ :: _ => inl Spec.MalformedHierarchy
  end.

(** [rank] decreases along every MEMBEROF edge that does not end at a vertex
    named as the root: no MEMBEROF path avoids the root for ever. *)
Definition ranked (rank : nat -> nat) (g : graph) : bool :=
  forallb (fun e => negb (String.eqb (elabel e) "MEMBEROF")
                    || forallb (has "name" database.ROOT) (lookup g (edst e))
                    || Nat.ltb (rank (edst e)) (rank (esrc e)))
          (edges g).

Definition rank_below (rank : nat -> nat) (bound : nat) (g : graph) : bool :=
  forallb (fun v => Nat.ltb (rank (vid v)) bound) (vertices g).

(** The values [attribute_value] converts without raising. *)
Fixpoint convertible (value : pyval) : bool :=
  match value with
  | PyStr _ | PyBool _ | PyDict _ => true
  | PyList l | PySet l => forallb convertible l
  | _ => false
  end.

(** [attribute_value] over the elements of a list, left to right. *)
Fixpoint attribute_values (l : list pyval) : res (list pyval) :=
  match l with
  | [] => Ok []
  | v :: r =>
      match permissions.attribute_value v with
      | Ok x => match attribute_values r with
                | Ok xs => Ok (x :: xs)
                | Raise e => Raise e
                | OutOfFuel => OutOfFuel
                end
      | Raise e => Raise e
      | OutOfFuel => OutOfFuel
      end
  end.

(** The decision-request schema: a typed entity identifier, and the
    entity-context block for a resource of kind [kind] with one entity, its
    two attributes and its parents. *)
Definition typed_identifier (kind : string) (id : propval) : pyval :=
  PyDict [("entityType", PyStr ("PetVideosApp::" ++ kind)); ("entityId", PyStr (str id))].

Definition entity_context (kind : string) (id : propval) (owner_id parents_id : list propval)
           (isPublic : bool) : pyval :=
  PyDict
    [("entityList",
      PyList
        [PyDict
           [("identifier", typed_identifier kind id);
            ("attributes",
             PyDict
               [("owner",
                 PyDict [("set",
                          PyList (map (fun u => PyDict [("entityIdentifier",
                                                         typed_identifier "User" u)])
                                      owner_id))]);
                ("isPublic", PyDict [("boolean", PyBool isPublic)])]);
            ("parents", PyList (map (typed_identifier "Directory") parents_id))]])].

(** The request [permissions_check_token_directory] submits for a resolved
    directory, whatever its [isPublic] holds, and the one for a video. *)
Definition directory_request (POLICY_STORE_ID token action : string) (d : Directory.t) : pyval :=
  PyDict
    [("policyStoreId", PyStr POLICY_STORE_ID);
     ("identityToken", PyStr token);
     ("action", PyDict [("actionType", PyStr "PetVideosApp::Action");
                        ("actionId", PyStr action)]);
     ("resource", permissions.entity "Directory" (Directory.directory_id d));
     ("entities",
      PyDict
        [("entityList",
          PyList
            [PyDict
               [("identifier", permissions.entity "Directory" (Directory.directory_id d));
                ("attributes",
                 PyDict
                   [("owner",
                     PyDict [("set",
                              PyList (map (fun u => PyDict [("entityIdentifier",
                                                             permissions.entity "User" u)])
                                          (Directory.owner_id d)))]);
                    ("isPublic",
                     PyDict [(match Directory.isPublic d with
                              | PStr _ => "string"
                              | PBool _ => "boolean"
                              end, of_prop (Directory.isPublic d))])]);
                ("parents",
                 PyList (map (permissions.entity "Directory") (Directory.parents_id d)))]])])].

Definition video_request (POLICY_STORE_ID token action : string) (v : Video.t) : pyval :=
  PyDict
    [("policyStoreId", PyStr POLICY_STORE_ID);
     ("identityToken", PyStr token);
     ("action", PyDict [("actionType", PyStr "PetVideosApp::Action");
                        ("actionId", PyStr action)]);
     ("resource", permissions.entity "Video" (Video.video_id v));
     ("entities",
      PyDict
        [("entityList",
          PyList
            [PyDict
               [("identifier", permissions.entity "Video" (Video.video_id v));
                ("attributes",
                 PyDict
                   [("owner",
                     PyDict [("set",
                              PyList (map (fun u => PyDict [("entityIdentifier",
                                                             permissions.entity "User" u)])
                                          (Video.owner_id v)))]);
                    ("isPublic",
                     PyDict [(match Video.isPublic v with
                              | PStr _ => "string"
                              | PBool _ => "boolean"
                              end, of_prop (Video.isPublic v))])]);
                ("parents",
                 PyList (map (permissions.entity "Directory") (Video.parents_id v)))]])])].

(** The request for no resource: the placeholder entity, no entity context. *)
Definition placeholder_request (POLICY_STORE_ID token action : string) : pyval :=
  PyDict
    [("policyStoreId", PyStr POLICY_STORE_ID);
     ("identityToken", PyStr token);
     ("action", PyDict [("actionType", PyStr "PetVideosApp::Action");
                        ("actionId", PyStr action)]);
     ("resource", PyDict [("entityType", PyStr "PetVideosApp::Application");
                          ("entityId", PyStr "PetVideosApp")])].


Definition decision_request (c : call) : bool :=
  match c with
  | IsAuthorizedWithToken _ => true
  | _ => false
  end.

(** The answers of the decision path. *)
Definition allowed (policy : string) : main.response :=
  main.format_response
    [("message", ("Access allowed -- determining policy id is " ++ policy)%string)] 200.

Definition denied : main.response :=
  main.format_response [("message", "Access denied -- permissions check failed")] 401.

Definition failed (e : exn) : main.response :=
  main.format_response
    [("message", ("Access denied -- permissions check failed - " ++ str_exn e)%string)] 401.

(** How the decision path answers what the engine said. *)
Definition answer (r : exn + avp_response) : main.response :=
  match r with
  | inl e => failed e
  | inr resp =>
      if String.eqb (decision resp) "ALLOW" then
        match determiningPolicies resp with
        | policy :: _ => allowed policy
        | [] => failed (IndexError "list index out of range")
        end
      else denied
  end.

(** A response as the client receives it, written out: the status code, the
    two headers every response carries, and a body with one message. *)
Definition message_response (status : Z) (message : string) : main.response :=
  main.mkResponse status
                  [("Content-Type", "application/json"); ("Access-Control-Allow-Origin", "*")]
                  [("message", message)].

(** ** Sample requests *)

Module Requests.

Definition get_event (resource : string) (params : list (string * string)) : main.event :=
  main.mkEvent resource "GET"
               [("Authorization", "Bearer access"); ("id-token", "identity")]
               None (Some params).

Definition jwt_decode (token : string) : exn + list (string * string) :=
  inr [("iss", "https://cognito-idp.example/pool"); ("sub", "bob")].

Definition json_loads (s : string) : exn + list (string * string) :=
  inl (ValueError "Expecting value").

(** A policy-decision engine that permits, one that refuses and one that
    cannot be reached. *)
Definition allow (args : pyval) : exn + avp_response := inr (mkResp "ALLOW" ["policy-0"]).
Definition deny (args : pyval) : exn + avp_response := inr (mkResp "DENY" []).

Definition handler := main.handler "store-1" jwt_decode json_loads.


Definition pet_directory : main.event :=
  get_event "/directory/get" [("directoryName", "petVideosDirectory")].

End Requests.

(** ** What the handler can do *)

Definition no_identity_token : main.response :=
  main.format_response [("message", "Access denied -- no identity token provided")] 401.

Definition token_broken : main.response :=
  main.format_response [("message", "Access denied -- token broken")] 401.

Definition directory_not_found : main.response :=
  main.format_response [("message", "Invalid input -- directory doesn't exist")] 400.

Definition video_not_found : main.response :=
  main.format_response [("message", "Invalid input -- video doesn't exist")] 400.

(** The runs of the handler, by the point where it stops: before the check
    (environment, route, headers, access token, body), on a request without a
    name, and on a request about a directory or about a video (the resource
    not found, the store raising or not answering, no identity token, the
    decision, and the route of the other kind, where the local variable read
    was never bound). *)
Inductive handled (P : string) (avp : pyval -> exn + avp_response) (fuel : nat) (g : remote)
  : W (option main.response) -> Prop :=
| handled_environment :
    handled P avp fuel g
            ([], Ok (Some (main.format_response
                             [("message",
                               "API Lambda environment variables not set. Please set POLICY_STORE_ID.")]
                             500)))
| handled_unknown :
    handled P avp fuel g ([], Ok (Some (main.format_response [("message", "Unknown API call")] 404)))
| handled_token_broken : handled P avp fuel g ([], Ok (Some token_broken))
| handled_raise (e : exn) : handled P avp fuel g ([], Raise e)
| handled_no_token : handled P avp fuel g ([], Ok (Some no_identity_token))
| handled_no_name (var : string) :
    handled P avp fuel g ([], Ok (Some (failed (UnboundLocalError var))))
| handled_directory_absent (name : string) :
    database.query_directory_info fuel g name = Ok None ->
    handled P avp fuel g ([QueryDirectoryInfo name], Ok (Some directory_not_found))
| handled_directory_raise (name : string) (e : exn) :
    database.query_directory_info fuel g name = Raise e ->
    handled P avp fuel g ([QueryDirectoryInfo name], Raise e)
| handled_directory_running (name : string) :
    database.query_directory_info fuel g name = OutOfFuel ->
    handled P avp fuel g ([QueryDirectoryInfo name], OutOfFuel)
| handled_directory_no_token (name : string) (d : Directory.t) :
    database.query_directory_info fuel g name = Ok (Some d) ->
    handled P avp fuel g ([QueryDirectoryInfo name], Ok (Some no_identity_token))
| handled_directory_decided (name token : string) (d : Directory.t) :
    database.query_directory_info fuel g name = Ok (Some d) ->
    main.truthy token = true ->
    handled P avp fuel g
            ([QueryDirectoryInfo name; QueryDirectoryInfo name;
              IsAuthorizedWithToken (directory_request P token "ViewDirectory" d)],
             Ok (Some (answer (avp (directory_request P token "ViewDirectory" d)))))
| handled_directory_other_route (name : string) (d : Directory.t) :
    database.query_directory_info fuel g name = Ok (Some d) ->
    handled P avp fuel g
            ([QueryDirectoryInfo name; QueryDirectoryInfo name],
             Ok (Some (failed (UnboundLocalError "video"))))
| handled_video_absent (name : string) :
    database.query_video_info fuel g name = Ok None ->
    handled P avp fuel g ([QueryVideoInfo name], Ok (Some video_not_found))
| handled_video_raise (name : string) (e : exn) :
    database.query_video_info fuel g name = Raise e ->
    handled P avp fuel g ([QueryVideoInfo name], Raise e)
| handled_video_running (name : string) :
    database.query_video_info fuel g name = OutOfFuel ->
    handled P avp fuel g ([QueryVideoInfo name], OutOfFuel)
| handled_video_no_token (name : string) (v : Video.t) :
    database.query_video_info fuel g name = Ok (Some v) ->
    handled P avp fuel g ([QueryVideoInfo name], Ok (Some no_identity_token))
| handled_video_decided (name token : string) (v : Video.t) :
    database.query_video_info fuel g name = Ok (Some v) ->
    main.truthy token = true ->
    handled P avp fuel g
            ([QueryVideoInfo name; QueryVideoInfo name;
              IsAuthorizedWithToken (video_request P token "ViewVideo" v)],
             Ok (Some (answer (avp (video_request P token "ViewVideo" v)))))
| handled_video_other_route (name : string) (v : Video.t) :
    database.query_video_info fuel g name = Ok (Some v) ->
    handled P avp fuel g
            ([QueryVideoInfo name; QueryVideoInfo name],
             Ok (Some (failed (UnboundLocalError "video_dir")))).

(** Calls on the graph store. *)
Definition store_query (c : call) : bool :=
  match c with
  | QueryDirectoryInfo _ | QueryVideoInfo _ => true
  | IsAuthorizedWithToken _ => false
  end.

(** ** The store between the two reads of the handler *)

Section Between.
(** The existence check and the resolution of the handler are two round
    trips to the graph store, and the result of the second is not checked.
    Here the store holds [g] at the first and [g'] at the second;
    [authorize_between] and [handler_between] are [main.authorize] and
    [main.handler] in every other respect, and equal to them on [g' = g]. *)
Variable POLICY_STORE_ID : string.
Variable jwt_decode : string -> exn + list (string * string).
Variable json_loads : string -> exn + list (string * string).
Variable is_authorized_with_token : pyval -> exn + avp_response.
Variable fuel : nat.
Variables g g' : remote.
Local Open Scope W_scope.

Definition authorize_between (event : main.event) (action : string)
           (directory_name video_name : option string) : W (option main.response) :=
  missing <- main.check_exists fuel g directory_name video_name ;;
  match missing with
  | Some r => main.return_ r
  | None =>
      let id_token := get "id-token" (main.headers event) in
      if negb (main.truthy_opt id_token) then
        main.return_ (main.format_response
                        [("message", "Access denied -- no identity token provided")] 401)
      else
        '(video_dir, video, broken) <- main.resolve fuel g' directory_name video_name ;;
        match broken with
        | Some r => main.return_ r
        | None =>
            if String.eqb action "ViewDirectory" then
              main.view_directory POLICY_STORE_ID is_authorized_with_token
                                  (main.name_of id_token) action video_dir
            else if String.eqb action "ViewVideo" then
              main.view_video POLICY_STORE_ID is_authorized_with_token
                              (main.name_of id_token) action video
            else ret None
        end
  end.

Definition handler_between (event : main.event) : W (option main.response) :=
  if negb (main.truthy POLICY_STORE_ID) then
    main.return_ (main.format_response
                    [("message",
                      "API Lambda environment variables not set. Please set POLICY_STORE_ID.")]
                    500)
  else
    let action := main.requested_action event in
    if String.eqb action "Unknown" then
      main.return_ (main.format_response [("message", "Unknown API call")] 404)
    else
      broken <- main.principal_of_token jwt_decode event ;;
      match broken with
      | Some r => main.return_ r
      | None =>
          '(directory_name, video_name) <- main.request_names json_loads event ;;
          authorize_between event action directory_name video_name
      end.

End Between.

(** ** classtype.py and database.py, the user query *)

Module User.
Record t : Type := mk {
  user_id : propval;
  user_name : string;
  user_vertex : vertex
}.
End User.

Module database_users.

Section Queries.
Variable g : remote.
Local Open Scope res_scope.

Definition query_user_info (user_name : string) : res User.t :=
  user_id <- next g (fun g =>
    Some (values "userId"
            (filter (has "name" (PStr user_name)) (filter (hasLabel "user") (vertices g))))) ;;
  user_vertex <- next g (fun g =>
    Some (filter (has "name" (PStr user_name))
                 (filter (has "userId" user_id) (filter (hasLabel "user") (vertices g))))) ;;
  Ok (User.mk user_id user_name user_vertex).

End Queries.

Section Getters.
Variable fuel : nat.
Variable g : remote.

Definition get_directory (directory_name : string) : res (option Directory.t) :=
  let directoryInfo := database.query_directory_info fuel g directory_name in
  directoryInfo.

Definition get_video (video_name : string) : res (option Video.t) :=
  let videoInfo := database.query_video_info fuel g video_name in
  videoInfo.

End Getters.

End database_users.

(** A user vertex that is the source of an OWNER edge of the graph. *)
Definition owner_in (g : graph) (o : vertex) : Prop :=
  In o (vertices g)
  /\ exists e, In e (edges g) /\ elabel e = "OWNER" /\ esrc e = vid o.

(** A vertex that is the target of a MEMBEROF edge of the graph. *)
Definition parent_in (g : graph) (p : vertex) : Prop :=
  In p (vertices g)
  /\ exists e, In e (edges g) /\ elabel e = "MEMBEROF" /\ edst e = vid p.

(** ** avp-rebac-bootstraplambda/main.py *)

Module bootstrap.

(** The calls on Cognito and on the policy store, with their arguments. *)
Inductive aws_call : Type :=
| AdminCreateUser (UserPoolId Username TemporaryPassword MessageAction : string)
| AdminSetUserPassword (UserPoolId Username Password : string) (Permanent : bool)
| CreatePolicy (policyStoreId description statement : string).

(** A computation on the graph store with its trace of AWS calls. *)
Definition B (A : Type) : Type := remote -> (list aws_call * (remote * res A))%type.

Definition retB {A} (a : A) : B A := fun store => ([], (store, Ok a)).

Definition bindB {A C} (m : B A) (f : A -> B C) : B C :=
  fun store =>
    match m store with
    | (t, (store', Ok a)) => let '(t', r) := f a store' in (t ++ t', r)
    | (t, (store', Raise e)) => (t, (store', Raise e))
    | (t, (store', OutOfFuel)) => (t, (store', OutOfFuel))
    end.

Declare Scope B_scope.
Delimit Scope B_scope with B.
Notation "x <- m ;; k" := (bindB m (fun x => k))
  (at level 61, m at next level, right associativity) : B_scope.

(** A step on the graph: it raises when the store cannot be reached. *)
Definition on_graph {A} (f : graph -> graph * A) : B A :=
  fun store =>
    match store with
    | Up g => let '(g', a) := f g in ([], (Up g', Ok a))
    | Down msg => ([], (store, Raise (GremlinServerError msg)))
    end.

(** [g.V().drop().iterate()]: every vertex goes, and its edges with it. *)
Definition drop : B unit := on_graph (fun _ => (mkG [] [], tt)).

(** [g.addV(label).property(...)...next()]: the store gives the new vertex
    an identity of its own. *)
Definition fresh (g : graph) : nat := S (list_max (map vid (vertices g))).

Definition addV (label : string) (properties : list (string * propval)) : B vertex :=
  on_graph (fun g =>
              let v := mkV (fresh g) label properties in
              (mkG (vertices g ++ [v]) (edges g), v)).

(** [g.V(v).addE(label).to(w).iterate()], for vertices of the graph (the
    handler passes vertices it has just added). *)
Definition addE (v : vertex) (label : string) (w : vertex) : B unit :=
  on_graph (fun g =>
              if existsb (same_vertex v) (vertices g) && existsb (same_vertex w) (vertices g)
              then (mkG (vertices g) (edges g ++ [mkE label (vid v) (vid w)]), tt)
              else (g, tt)).

(** A text between double quotes (character 34). *)
Definition quoted (s : string) : string :=
  (String (ascii_of_nat 34) s ++ String (ascii_of_nat 34) EmptyString)%string.

Section Bootstrap.
(** The environment, the identifiers drawn when the module is loaded, and
    the clients: [admin_create_user] answers the attributes of the new user
    as name and value pairs, or raises. *)
Variables user_pool_id policy_store_id : string.
Variables petVideosDir_id aliceVideosDir_id bobVideosDir_id : string.
Variables aliceCatVideo_id bobDogVideo_id : string.
Variable admin_create_user : string -> string -> exn + list (string * string).
Variable admin_set_user_password : string -> string -> exn + unit.
Variable create_policy : string -> string -> string -> exn + unit.

(** [create_cognito_user]: each of its two [try] blocks catches every
    exception and prints it; [avp_username_id] is bound only when the first
    block reaches its last line. *)
Definition create_cognito_user (username user_pool_id : string) : B string :=
  fun store =>
    let avp_username_id :=
      match admin_create_user user_pool_id username with
      | inr attributes =>
          match get "sub" attributes with
          | Some sub => Some (user_pool_id ++ "|" ++ sub)%string
          | None => None
          end
      | inl _ => None
      end in
    ([AdminCreateUser user_pool_id username "TempPassword123!" "SUPPRESS";
      AdminSetUserPassword user_pool_id username "Password123!" true],
     (store,
      match avp_username_id with
      | Some id => Ok id
      | None => Raise (UnboundLocalError "avp_username_id")
      end)).

Definition policy (description statement : string) : B unit :=
  fun store =>
    ([CreatePolicy policy_store_id description statement],
     (store, of_sum (create_policy policy_store_id description statement))).

Local Open Scope B_scope.

(** [handler(event, context)]; its [except] clause logs and raises again. *)
Definition handler : B unit :=
  (* Creating Cognito users "Alice", "Bob" and "Charlie" *)
  alice_id <- create_cognito_user "alice" user_pool_id ;;
  bob_id <- create_cognito_user "bob" user_pool_id ;;
  charlie_id <- create_cognito_user "charlie" user_pool_id ;;
  (* Connecting to Amazon Neptune *)
  _ <- drop ;;
  (* Adding user vertices *)
  alice_vertex <- addV "user" [("name", PStr "alice"); ("userId", PStr alice_id)] ;;
  bob_vertex <- addV "user" [("name", PStr "bob"); ("userId", PStr bob_id)] ;;
  charlie_vertex <- addV "user" [("name", PStr "charlie"); ("userId", PStr charlie_id)] ;;
  (* Adding directory vertices *)
  aliceVideosDir_vertex <-
    addV "directory" [("name", PStr "aliceVideosDirectory");
                      ("directoryId", PStr aliceVideosDir_id);
                      ("ownerId", PStr alice_id); ("ownerName", PStr "alice");
                      ("isPublic", PBool false)] ;;
  bobVideosDir_vertex <-
    addV "directory" [("name", PStr "bobVideosDirectory");
                      ("directoryId", PStr bobVideosDir_id);
                      ("ownerId", PStr bob_id); ("ownerName", PStr "bob");
                      ("isPublic", PBool false)] ;;
  petVideosDir_vertex <-
    addV "directory" [("name", PStr "petVideosDirectory");
                      ("directoryId", PStr petVideosDir_id);
                      ("ownerId", PStr charlie_id); ("ownerName", PStr "charlie");
                      ("isPublic", PBool false)] ;;
  (* Adding video vertices *)
  aliceCatVideo_vertex <-
    addV "video" [("name", PStr "aliceCatVideo.mp4"); ("videoId", PStr aliceCatVideo_id);
                  ("ownerId", PStr alice_id); ("ownerName", PStr "alice");
                  ("isPublic", PBool false)] ;;
  bobDogVideo_vertex <-
    addV "video" [("name", PStr "bobDogVideo.mp4"); ("videoId", PStr bobDogVideo_id);
                  ("ownerId", PStr bob_id); ("ownerName", PStr "bob");
                  ("isPublic", PBool false)] ;;
  (* Adding edges *)
  _ <- addE charlie_vertex "OWNER" petVideosDir_vertex ;;
  _ <- addE aliceVideosDir_vertex "MEMBEROF" petVideosDir_vertex ;;
  _ <- addE bobVideosDir_vertex "MEMBEROF" petVideosDir_vertex ;;
  _ <- addE alice_vertex "OWNER" aliceVideosDir_vertex ;;
  _ <- addE aliceCatVideo_vertex "MEMBEROF" aliceVideosDir_vertex ;;
  _ <- addE bob_vertex "OWNER" bobVideosDir_vertex ;;
  _ <- addE bobDogVideo_vertex "MEMBEROF" bobVideosDir_vertex ;;
  _ <- addE alice_vertex "OWNER" aliceCatVideo_vertex ;;
  _ <- addE bob_vertex "OWNER" bobDogVideo_vertex ;;
  (* Create Cedar policies in Verified Permissions policy store *)
  _ <- policy "Resource owner and related persons can access the resources"
         ("permit( principal, action in [PetVideosApp::Action::" ++ quoted "OwnerActions"
            ++ "], resource in PetVideosApp::Directory::" ++ quoted petVideosDir_id
            ++ ") when { resource has owner && principal in resource.owner };")%string ;;
  _ <- policy "Allow public access to the resources"
         ("permit( principal, action in [PetVideosApp::Action::" ++ quoted "PublicActions"
            ++ "], resource in PetVideosApp::Directory::" ++ quoted petVideosDir_id
            ++ ") when { resource has isPublic && resource.isPublic == true };")%string ;;
  retB tt.

(** The graph of the sample, for the user identifiers Cognito gave. *)
Definition seeded (alice_id bob_id charlie_id : string) : graph :=
  mkG [ mkV 1 "user" [("name", PStr "alice"); ("userId", PStr alice_id)];
        mkV 2 "user" [("name", PStr "bob"); ("userId", PStr bob_id)];
        mkV 3 "user" [("name", PStr "charlie"); ("userId", PStr charlie_id)];
        mkV 4 "directory" [("name", PStr "aliceVideosDirectory");
                           ("directoryId", PStr aliceVideosDir_id);
                           ("ownerId", PStr alice_id); ("ownerName", PStr "alice");
                           ("isPublic", PBool false)];
        mkV 5 "directory" [("name", PStr "bobVideosDirectory");
                           ("directoryId", PStr bobVideosDir_id);
                           ("ownerId", PStr bob_id); ("ownerName", PStr "bob");
                           ("isPublic", PBool false)];
        mkV 6 "directory" [("name", PStr "petVideosDirectory");
                           ("directoryId", PStr petVideosDir_id);
                           ("ownerId", PStr charlie_id); ("ownerName", PStr "charlie");
                           ("isPublic", PBool false)];
        mkV 7 "video" [("name", PStr "aliceCatVideo.mp4"); ("videoId", PStr aliceCatVideo_id);
                       ("ownerId", PStr alice_id); ("ownerName", PStr "alice");
                       ("isPublic", PBool false)];
        mkV 8 "video" [("name", PStr "bobDogVideo.mp4"); ("videoId", PStr bobDogVideo_id);
                       ("ownerId", PStr bob_id); ("ownerName", PStr "bob");
                       ("isPublic", PBool false)] ]
      [ mkE "OWNER" 3 6; mkE "MEMBEROF" 4 6; mkE "MEMBEROF" 5 6;
        mkE "OWNER" 1 4; mkE "MEMBEROF" 7 4; mkE "OWNER" 2 5;
        mkE "MEMBEROF" 8 5; mkE "OWNER" 1 7; mkE "OWNER" 2 8 ].

End Bootstrap.

End bootstrap.

(** The identifier [create_cognito_user] makes for a user, when Cognito
    creates the user and answers its [sub] attribute. *)
Definition created (admin_create_user : string -> string -> exn + list (string * string))
           (user_pool_id username : string) : option string :=
  match admin_create_user user_pool_id username with
  | inr attributes =>
      match get "sub" attributes with
      | Some sub => Some (user_pool_id ++ "|" ++ sub)%string
      | None => None
      end
  | inl _ => None
  end.

Definition is_policy (c : bootstrap.aws_call) : bool :=
  match c with
  | bootstrap.CreatePolicy _ _ _ => true
  | _ => false
  end.

(** The closure of the specification, read on the record a query returns:
    the owners are those of the resource and of every ancestor of its chain,
    the parents are the whole chain. *)
Definition directory_closure (fuel : nat) (g : graph) (name : string) : Prop :=
  exists r c id p,
    Spec.ancestorChain 2 g r = inr c
    /\ database.query_directory_info fuel (Up g) name
       = Ok (Some (Directory.mk id name r
                     (values "userId" (Spec.owners g r c))
                     (values "name" (Spec.owners g r c))
                     (values "directoryId" c) p)).

Definition video_closure (fuel : nat) (g : graph) (name : string) : Prop :=
  exists r c id p,
    Spec.ancestorChain 2 g r = inr c
    /\ database.query_video_info fuel (Up g) name
       = Ok (Some (Video.mk id name r
                     (values "userId" (Spec.owners g r c))
                     (values "name" (Spec.owners g r c))
                     (values "directoryId" c) p)).

(** ** avp-rebac-helperlambda/handler.py *)

Module helper.

(** The custom-resource event, with the field [create] reads. *)
Record event : Type := mkEvent {
  ResourceProperties : list (string * string)
}.

Inductive aws_call : Type :=
| UpdateUserPoolClient (params : pyval)
| UpdateFunctionConfiguration (params : pyval).

(** The properties [create] reads, in the order it reads them. *)
Definition properties : list string :=
  ["ClientID"; "cupid"; "LoginURL"; "LambdaName";
   "CUP_CLIENT_ID"; "CUP_CLIENT_SECRET"; "CUP_DOMAIN"].

Section Create.
Variable update_user_pool_client : pyval -> exn + unit.
Variable update_function_configuration : pyval -> exn + unit.
Local Open Scope res_scope.

(** [create(event, _)]; [Data] is [helper.Data], in which the result is
    recorded.  Each [except] clause prints the exception and raises it
    again. *)
Definition create (event : event) (Data : list (string * string))
  : list aws_call * res (list (string * string)) :=
  match
    (client_id <- getitem (ResourceProperties event) "ClientID" ;;
     user_pool_id <- getitem (ResourceProperties event) "cupid" ;;
     login_url <- getitem (ResourceProperties event) "LoginURL" ;;
     lambda_name <- getitem (ResourceProperties event) "LambdaName" ;;
     cup_client_id <- getitem (ResourceProperties event) "CUP_CLIENT_ID" ;;
     cup_client_secret <- getitem (ResourceProperties event) "CUP_CLIENT_SECRET" ;;
     cup_domain <- getitem (ResourceProperties event) "CUP_DOMAIN" ;;
     Ok (client_id, user_pool_id, login_url, lambda_name,
         cup_client_id, cup_client_secret, cup_domain))
  with
  | Ok (client_id, user_pool_id, login_url, lambda_name,
        cup_client_id, cup_client_secret, cup_domain) =>
      (* Update user pool client *)
      let params :=
        PyDict [("ClientId", PyStr client_id);
                ("UserPoolId", PyStr user_pool_id);
                ("CallbackURLs", PyList [PyStr login_url]);
                ("LogoutURLs", PyList [PyStr login_url]);
                ("AllowedOAuthFlows", PyList [PyStr "code"]);
                ("AllowedOAuthScopes",
                 PyList [PyStr "openid"; PyStr "email"; PyStr "profile";
                         PyStr "PetVideosAppResourceServer/PetVideosAppApi"]);
                ("ExplicitAuthFlows",
                 PyList [PyStr "ALLOW_USER_SRP_AUTH"; PyStr "ALLOW_REFRESH_TOKEN_AUTH"]);
                ("SupportedIdentityProviders", PyList [PyStr "COGNITO"]);
                ("AllowedOAuthFlowsUserPoolClient", PyBool true)] in
      match update_user_pool_client params with
      | inl e => ([UpdateUserPoolClient params], Raise e)
      | inr _ =>
          (* Update Lambda function configuration *)
          let params' :=
            PyDict [("FunctionName", PyStr lambda_name);
                    ("Environment",
                     PyDict [("Variables",
                              PyDict [("CLIENT_ID", PyStr cup_client_id);
                                      ("CLIENT_SECRET", PyStr cup_client_secret);
                                      ("COGNITO_DOMAIN", PyStr cup_domain);
                                      ("REDIRECT_URI", PyStr login_url);
                                      ("USER_POOL_ID", PyStr user_pool_id)])])] in
          match update_function_configuration params' with
          | inl e => ([UpdateUserPoolClient params; UpdateFunctionConfiguration params'],
                      Raise e)
          | inr _ =>
              (* Send success response *)
              ([UpdateUserPoolClient params; UpdateFunctionConfiguration params'],
               Ok (setitem "Result" "Success" Data))
          end
      end
  | Raise e => ([], Raise e)
  | OutOfFuel => ([], OutOfFuel)
  end.

(** [no_op(_, __)], for updates and deletions. *)
Definition no_op : string := "Success".

End Create.

End helper.

(** * Properties *)

(** ** The [repeat]/[until] walk *)

Section Walk.
Variable g : graph.

Lemma repeat_until_nil (fuel : nat) (b : vertex -> list vertex) (s : vertex -> bool) :
  repeat_until fuel b s [] = Some [].
Proof. destruct fuel; reflexivity. Qed.

Lemma repeat_until_step (fuel : nat) (b : vertex -> list vertex) (s : vertex -> bool)
      (v : vertex) :
  repeat_until (S fuel) b s [v] =
  match repeat_until fuel b s (filter (fun w => negb (s w)) (b v)) with
  | Some r => Some (filter s (b v) ++ r)
  | None => None
  end.
Proof. cbn [repeat_until flat_map]. now rewrite app_nil_r. Qed.

(** On a chain of single parents the walk yields the root the chain ends
    at, and nothing when the chain ends below a root. *)
Lemma repeat_until_chain (maxDepth : nat) :
  forall (r : vertex) (c : list vertex) (fuel : nat),
    Spec.ancestorChain maxDepth g r = inr c ->
    has "name" database.ROOT r = false \/ out "MEMBEROF" g r = [] ->
    List.length c < fuel ->
    repeat_until fuel (out "MEMBEROF" g) (has "name" database.ROOT) [r]
= Some (filter (has "name" database.ROOT) c).
Proof.
  induction maxDepth as [|d IH]; intros r c fuel Hc Hr Hfuel.
  - destruct fuel as [|fuel]; [lia|]. rewrite repeat_until_step.
    cbn [Spec.ancestorChain] in Hc.
    destruct (has "name" database.ROOT r) eqn:Hroot.
    + destruct Hr as [Hr|Hr]; [discriminate|]. rewrite Hr. cbn.
      rewrite repeat_until_nil. now inversion Hc.
    + destruct (out "MEMBEROF" g r) as [|p [|q rest]]; try discriminate.
      cbn. rewrite repeat_until_nil. now inversion Hc.
  - destruct fuel as [|fuel]; [lia|]. rewrite repeat_until_step.
    cbn [Spec.ancestorChain] in Hc.
    destruct (has "name" database.ROOT r) eqn:Hroot.
    + destruct Hr as [Hr|Hr]; [discriminate|]. rewrite Hr. cbn.
      rewrite repeat_until_nil. now inversion Hc.
    + destruct (out "MEMBEROF" g r) as [|p [|q rest]] eqn:Hout; try discriminate.
      * cbn. rewrite repeat_until_nil. now inversion Hc.
      * destruct (Spec.ancestorChain d g p) as [f|c'] eqn:Hp; [discriminate|].
        inversion Hc; subst c; clear Hc. cbn [List.length] in Hfuel.
        cbn [filter]. destruct (has "name" database.ROOT p) eqn:Hp_root.
        -- cbn [negb]. rewrite repeat_until_nil.
           destruct d; cbn [Spec.ancestorChain] in Hp; rewrite Hp_root in Hp;
             inversion Hp; reflexivity.
        -- cbn [negb]. rewrite (IH p c' fuel Hp (or_introl Hp_root)) by lia.
           reflexivity.
Qed.

(** A chain contains a root at most once, at its end. *)
Lemma ancestorChain_roots (maxDepth : nat) :
  forall (r : vertex) (c : list vertex),
    Spec.ancestorChain maxDepth g r = inr c ->
    List.length (filter (has "name" database.ROOT) c) <= 1.
Proof.
  induction maxDepth as [|d IH]; intros r c Hc; cbn [Spec.ancestorChain] in Hc.
  - destruct (has "name" database.ROOT r); [inversion Hc; cbn; lia|].
    destruct (out "MEMBEROF" g r) as [|p [|q rest]]; try discriminate.
    inversion Hc; cbn; lia.
  - destruct (has "name" database.ROOT r); [inversion Hc; cbn; lia|].
    destruct (out "MEMBEROF" g r) as [|p [|q rest]]; try discriminate.
    + inversion Hc; cbn; lia.
    + destruct (Spec.ancestorChain d g p) as [f|c'] eqn:Hp; [discriminate|].
      inversion Hc; subst c. cbn [filter].
      destruct (has "name" database.ROOT p) eqn:Hp_root.
      * destruct d; cbn [Spec.ancestorChain] in Hp; rewrite Hp_root in Hp;
          inversion Hp; cbn; lia.
      * now apply IH with p.
Qed.

(** The first element of the chain is the one parent. *)
Lemma ancestorChain_parent (maxDepth : nat) (r : vertex) (c : list vertex) :
  Spec.ancestorChain maxDepth g r = inr c ->
  has "name" database.ROOT r = false \/ out "MEMBEROF" g r = [] ->
  out "MEMBEROF" g r = firstn 1 c.
Proof.
  intros Hc Hr.
  destruct maxDepth as [|d]; cbn [Spec.ancestorChain] in Hc;
    destruct (has "name" database.ROOT r) eqn:Hroot.
  - destruct Hr as [Hr|Hr]; [discriminate|]. rewrite Hr. now inversion Hc.
  - destruct (out "MEMBEROF" g r) as [|p [|q rest]]; try discriminate. now inversion Hc.
  - destruct Hr as [Hr|Hr]; [discriminate|]. rewrite Hr. now inversion Hc.
  - destruct (out "MEMBEROF" g r) as [|p [|q rest]]; try discriminate.
    + now inversion Hc.
    + destruct (Spec.ancestorChain d g p); [discriminate|]. now inversion Hc.
Qed.

(** On a resource that is not named as the root, the ancestors are the
    chain of the specification. *)
Lemma ancestors_spec (maxDepth : nat) (r : vertex) :
  has "name" database.ROOT r = false ->
  Spec.ancestorChain (S maxDepth) g r = ancestors maxDepth g r.
Proof.
  intros Hroot. unfold ancestors. cbn [Spec.ancestorChain]. now rewrite Hroot.
Qed.

(** The walk of the queries takes the hop to the parent whatever the
    resource is named, and from there follows the chain. *)
Lemma ancestors_walk (maxDepth : nat) (r : vertex) (c : list vertex) (fuel : nat) :
  ancestors maxDepth g r = inr c ->
  List.length c < fuel ->
  repeat_until fuel (out "MEMBEROF" g) (has "name" database.ROOT) [r]
  = Some (filter (has "name" database.ROOT) c).
Proof.
  unfold ancestors. intros Hc Hfuel.
  destruct fuel as [|fuel]; [lia|]. rewrite repeat_until_step.
  destruct (out "MEMBEROF" g r) as [|p [|q rest]] eqn:Hout; try discriminate.
  - inversion Hc. cbn. now rewrite repeat_until_nil.
  - destruct (Spec.ancestorChain maxDepth g p) as [f|c'] eqn:Hp; [discriminate|].
    inversion Hc; subst c; clear Hc. cbn [List.length] in Hfuel.
    cbn [filter]. destruct (has "name" database.ROOT p) eqn:Hp_root.
    + cbn [negb]. rewrite repeat_until_nil.
      destruct maxDepth; cbn [Spec.ancestorChain] in Hp; rewrite Hp_root in Hp;
        inversion Hp; reflexivity.
    + cbn [negb].
      rewrite (repeat_until_chain maxDepth p c' fuel Hp (or_introl Hp_root)) by lia.
      reflexivity.
Qed.

Lemma ancestors_roots (maxDepth : nat) (r : vertex) (c : list vertex) :
  ancestors maxDepth g r = inr c ->
  List.length (filter (has "name" database.ROOT) c) <= 1.
Proof.
  unfold ancestors. intros Hc.
  destruct (out "MEMBEROF" g r) as [|p [|q rest]]; try discriminate.
  - inversion Hc. cbn. lia.
  - destruct (Spec.ancestorChain maxDepth g p) as [f|c'] eqn:Hp; [discriminate|].
    inversion Hc; subst c. cbn [filter].
    destruct (has "name" database.ROOT p) eqn:Hp_root.
    + destruct maxDepth; cbn [Spec.ancestorChain] in Hp; rewrite Hp_root in Hp;
        inversion Hp; cbn; lia.
    + now apply ancestorChain_roots with maxDepth p.
Qed.

Lemma ancestors_parent (maxDepth : nat) (r : vertex) (c : list vertex) :
  ancestors maxDepth g r = inr c ->
  out "MEMBEROF" g r = firstn 1 c.
Proof.
  unfold ancestors. intros Hc.
  destruct (out "MEMBEROF" g r) as [|p [|q rest]]; try discriminate.
  - now inversion Hc.
  - destruct (Spec.ancestorChain maxDepth g p); [discriminate|]. now inversion Hc.
Qed.

(** When the chain has at most one element, or two with the root as the
    second, the immediate parent and the root are the whole chain. *)
Lemma ancestors_complete (maxDepth : nat) (r : vertex) (c : list vertex) :
  ancestors maxDepth g r = inr c ->
  List.length c <= 1
  \/ (exists p q, c = [p; q] /\ has "name" database.ROOT q = true /\ same_vertex q p = false) ->
  dedup (firstn 1 c ++ filter (has "name" database.ROOT) c) = c.
Proof.
  intros Hc [Hlen|(p & q & -> & Hq & Hpq)].
  - destruct c as [|p [|q c]]; cbn [List.length] in Hlen; try lia; [reflexivity|].
    cbn [firstn app filter].
    destruct (has "name" database.ROOT p); cbn [dedup filter]; [|reflexivity].
    unfold same_vertex. now rewrite Nat.eqb_refl.
  - assert (has "name" database.ROOT p = false) as Hp.
    { unfold ancestors in Hc.
      destruct (out "MEMBEROF" g r) as [|p' [|q' rest]]; try discriminate.
      destruct (Spec.ancestorChain maxDepth g p') as [f|c'] eqn:Hp'; [discriminate|].
      inversion Hc; subst p' c'.
      destruct maxDepth; cbn [Spec.ancestorChain] in Hp';
        destruct (has "name" database.ROOT p); try discriminate; reflexivity. }
    cbn [firstn app filter]. rewrite Hp, Hq. cbn [dedup filter app]. now rewrite Hpq.
Qed.

End Walk.

(** ** Termination of the walk on ranked graphs *)

Lemma out_ranked (rank : nat -> nat) (g : graph) (v w : vertex) :
  ranked rank g = true ->
  In w (out "MEMBEROF" g v) ->
  has "name" database.ROOT w = false ->
  rank (vid w) < rank (vid v).
Proof.
  unfold ranked, out. intros Hrank Hin Hroot.
  apply in_flat_map in Hin. destruct Hin as (e & He & Hw).
  rewrite forallb_forall in Hrank. specialize (Hrank e He).
  destruct (String.eqb (elabel e) "MEMBEROF") eqn:Hl; [|contradiction].
  destruct (Nat.eqb (esrc e) (vid v)) eqn:Hs; [|contradiction].
  cbn [andb negb orb] in *. apply Nat.eqb_eq in Hs.
  pose proof Hw as Hw'. unfold lookup in Hw'. apply filter_In in Hw'.
  destruct Hw' as [_ Hid]. apply Nat.eqb_eq in Hid.
  apply orb_true_iff in Hrank. destruct Hrank as [Hall|Hlt].
  - rewrite forallb_forall in Hall. specialize (Hall w Hw). congruence.
  - apply Nat.ltb_lt in Hlt. congruence.
Qed.

Lemma repeat_until_terminates (rank : nat -> nat) (g : graph) :
  ranked rank g = true ->
  forall (fuel : nat) (ts : list vertex),
    Forall (fun v => rank (vid v) < fuel) ts ->
    exists R, repeat_until fuel (out "MEMBEROF" g) (has "name" database.ROOT) ts = Some R.
Proof.
  intros Hrank. induction fuel as [|fuel IH]; intros ts Hts.
  - destruct ts as [|t ts]; [now exists []|]. inversion Hts; lia.
  - destruct ts as [|t ts]; [now exists []|].
    cbn [repeat_until].
    destruct (IH (filter (fun v => negb (has "name" database.ROOT v))
                         (flat_map (out "MEMBEROF" g) (t :: ts)))) as [R HR].
    + apply Forall_forall. intros w Hw. apply filter_In in Hw. destruct Hw as [Hw Hroot].
      apply in_flat_map in Hw. destruct Hw as (v & Hv & Hw).
      rewrite Forall_forall in Hts. specialize (Hts v Hv).
      apply negb_true_iff in Hroot.
      pose proof (out_ranked rank g v w Hrank Hw Hroot). lia.
    + rewrite HR. eauto.
Qed.

(** ** The queries of database.py in terms of the walk *)

Section Resolved.
Variables (g : graph) (label idkey : string) (id : propval) (r : vertex).
Hypothesis Hres : database.resource label idkey id g = [r].

Lemma owners_walk (fuel : nat) (R : list vertex) :
  repeat_until fuel (out "MEMBEROF" g) (has "name" database.ROOT) [r] = Some R ->
  database.owners label idkey id fuel g
  = Some (dedup (in_ "OWNER" g r ++ flat_map (in_ "OWNER" g) R)).
Proof.
  intros HR. unfold database.owners. rewrite Hres.
  cbn [union]. unfold hop, then_, repeat_. rewrite HR. cbn [option_map].
  now rewrite app_nil_r.
Qed.

Lemma parents_walk (fuel : nat) (R : list vertex) :
  repeat_until fuel (out "MEMBEROF" g) (has "name" database.ROOT) [r] = Some R ->
  database.parents label idkey id fuel g = Some (dedup (out "MEMBEROF" g r ++ R)).
Proof.
  intros HR. unfold database.parents. rewrite Hres.
  cbn [union]. unfold hop, repeat_. rewrite HR. cbn [option_map].
  now rewrite app_nil_r.
Qed.

Lemma owners_diverges (fuel : nat) :
  repeat_until fuel (out "MEMBEROF" g) (has "name" database.ROOT) [r] = None ->
  database.owners label idkey id fuel g = None.
Proof.
  intros HR. unfold database.owners. rewrite Hres.
  cbn [union]. unfold hop, then_, repeat_. now rewrite HR.
Qed.

End Resolved.

Lemma hd_error_filter {A} (f : A -> bool) (l : list A) (x : A) :
  hd_error (filter f l) = Some x -> f x = true /\ exists tl, filter f l = x :: tl.
Proof.
  intros H. destruct (filter f l) as [|y tl] eqn:E; [discriminate|].
  inversion H; subst y. split; [|now exists tl].
  assert (In x (filter f l)) as Hin by (rewrite E; now left).
  now apply filter_In in Hin.
Qed.

Lemma hd_error_cons {A} (l : list A) (x : A) :
  hd_error l = Some x -> exists tl, l = x :: tl.
Proof. destruct l as [|y tl]; [discriminate|]. intros H; inversion H. now exists tl. Qed.

(** What [query_directory_info] returns once the walk from the resource has
    ended with the vertices [R]. *)
Lemma query_directory_info_walk (fuel : nat) (g : graph) (name : string)
      (r : vertex) (id p : propval) (R : list vertex) :
  designates g "directory" "directoryId" name r id p ->
  repeat_until fuel (out "MEMBEROF" g) (has "name" database.ROOT) [r] = Some R ->
  database.query_directory_info fuel (Up g) name
  = Ok (Some (Directory.mk id name r
                (values "userId" (dedup (in_ "OWNER" g r ++ flat_map (in_ "OWNER" g) R)))
                (values "name" (dedup (in_ "OWNER" g r ++ flat_map (in_ "OWNER" g) R)))
                (values "directoryId" (dedup (out "MEMBEROF" g r ++ R)))
                p)).
Proof.
  intros (Hname & Hid & Hres & Hpub) HR.
  apply hd_error_filter in Hname. destruct Hname as (Hr & tl & Hname).
  apply hd_error_cons in Hid. destruct Hid as (ids & Hid).
  apply hd_error_cons in Hpub. destruct Hpub as (ps & Hpub).
  unfold database.query_directory_info. cbn [toList next res_bind].
  rewrite Hname. cbn [values flat_map]. rewrite Hid. cbn [app res_bind].
  rewrite Hres. cbn [filter]. rewrite Hr. cbn [res_bind].
  rewrite (owners_walk g _ _ id r Hres fuel R HR).
  rewrite (parents_walk g _ _ id r Hres fuel R HR).
  cbn [option_map res_bind values flat_map]. rewrite Hpub. reflexivity.
Qed.

Lemma query_video_info_walk (fuel : nat) (g : graph) (name : string)
      (r : vertex) (id p : propval) (R : list vertex) :
  designates g "video" "videoId" name r id p ->
  repeat_until fuel (out "MEMBEROF" g) (has "name" database.ROOT) [r] = Some R ->
  database.query_video_info fuel (Up g) name
  = Ok (Some (Video.mk id name r
                (values "userId" (dedup (in_ "OWNER" g r ++ flat_map (in_ "OWNER" g) R)))
                (values "name" (dedup (in_ "OWNER" g r ++ flat_map (in_ "OWNER" g) R)))
                (values "directoryId" (dedup (out "MEMBEROF" g r ++ R)))
                p)).
Proof.
  intros (Hname & Hid & Hres & Hpub) HR.
  apply hd_error_filter in Hname. destruct Hname as (Hr & tl & Hname).
  apply hd_error_cons in Hid. destruct Hid as (ids & Hid).
  apply hd_error_cons in Hpub. destruct Hpub as (ps & Hpub).
  unfold database.query_video_info. cbn [toList next res_bind].
  rewrite Hname. cbn [values flat_map]. rewrite Hid. cbn [app res_bind].
  rewrite Hres. cbn [filter]. rewrite Hr. cbn [res_bind].
  rewrite (owners_walk g _ _ id r Hres fuel R HR).
  rewrite (parents_walk g _ _ id r Hres fuel R HR).
  cbn [option_map res_bind values flat_map]. rewrite Hpub. reflexivity.
Qed.

Lemma query_directory_info_diverges (fuel : nat) (g : graph) (name : string)
      (r : vertex) (id p : propval) :
  designates g "directory" "directoryId" name r id p ->
  repeat_until fuel (out "MEMBEROF" g) (has "name" database.ROOT) [r] = None ->
  database.query_directory_info fuel (Up g) name = OutOfFuel.
Proof.
  intros (Hname & Hid & Hres & Hpub) HR.
  apply hd_error_filter in Hname. destruct Hname as (Hr & tl & Hname).
  apply hd_error_cons in Hid. destruct Hid as (ids & Hid).
  unfold database.query_directory_info. cbn [toList next res_bind].
  rewrite Hname. cbn [values flat_map]. rewrite Hid. cbn [app res_bind].
  rewrite Hres. cbn [filter]. rewrite Hr. cbn [res_bind].
  rewrite (owners_diverges g _ _ id r Hres fuel HR). reflexivity.
Qed.

Lemma designates_in (g : graph) (label idkey name : string) (r : vertex) (id p : propval) :
  designates g label idkey name r id p -> In r (vertices g).
Proof.
  intros (Hname & _). apply hd_error_filter in Hname. destruct Hname as (_ & tl & Hname).
  assert (In r (filter (has "name" (PStr name)) (filter (hasLabel label) (vertices g))))
    as Hin by (rewrite Hname; now left).
  apply filter_In in Hin. destruct Hin as [Hin _]. now apply filter_In in Hin.
Qed.

(** Only vertices named as the root come out of the walk. *)
Lemma repeat_until_roots (b : vertex -> list vertex) (s : vertex -> bool) :
  forall (fuel : nat) (ts R : list vertex),
    repeat_until fuel b s ts = Some R -> forallb s R = true.
Proof.
  induction fuel as [|fuel IH]; intros ts R H.
  - destruct ts; [|discriminate]. now inversion H.
  - destruct ts as [|t ts]; [now inversion H|].
    cbn [repeat_until] in H.
    destruct (repeat_until fuel b s
                (filter (fun v => negb (s v)) (flat_map b (t :: ts)))) as [R'|] eqn:E;
      [|discriminate].
    inversion H; subst R. rewrite forallb_app. apply andb_true_iff. split.
    + apply forallb_forall. intros x Hx. now apply filter_In in Hx.
    + now apply IH with (filter (fun v => negb (s v)) (flat_map b (t :: ts))).
Qed.

Lemma rank_below_in (rank : nat -> nat) (fuel : nat) (g : graph) (r : vertex) :
  rank_below rank fuel g = true -> In r (vertices g) -> rank (vid r) < fuel.
Proof.
  unfold rank_below. rewrite forallb_forall. intros H Hin.
  now apply Nat.ltb_lt, H.
Qed.

Lemma walk_terminates (rank : nat -> nat) (fuel : nat) (g : graph) (r : vertex) :
  ranked rank g = true -> rank_below rank fuel g = true -> In r (vertices g) ->
  exists R, repeat_until fuel (out "MEMBEROF" g) (has "name" database.ROOT) [r] = Some R.
Proof.
  intros Hrank Hbelow Hin. apply (repeat_until_terminates rank g Hrank).
  constructor; [|constructor]. now apply rank_below_in with g.
Qed.

Lemma union_terminates (a b : traversal) (fuel : nat) (g : graph) (ts : list vertex) :
  (forall t, In t ts -> a fuel g t <> None) ->
  (forall t, In t ts -> b fuel g t <> None) ->
  union a b fuel g ts <> None.
Proof.
  induction ts as [|t ts IH]; intros Ha Hb; cbn [union]; [discriminate|].
  specialize (Ha t (or_introl eq_refl)) as Hat.
  specialize (Hb t (or_introl eq_refl)) as Hbt.
  destruct (a fuel g t); [|contradiction]. destruct (b fuel g t); [|contradiction].
  destruct (union a b fuel g ts) eqn:E; [discriminate|].
  exfalso. apply IH; auto; intros; [apply Ha|apply Hb]; now right.
Qed.

Section Ranked.
Variables (rank : nat -> nat) (fuel : nat) (g : graph).
Hypothesis Hrank : ranked rank g = true.
Hypothesis Hbelow : rank_below rank fuel g = true.

Lemma resource_in (label idkey : string) (id : propval) (t : vertex) :
  In t (database.resource label idkey id g) -> In t (vertices g).
Proof.
  unfold database.resource. intros H. apply filter_In in H. destruct H as [H _].
  now apply filter_In in H.
Qed.

Lemma owners_terminates (label idkey : string) (id : propval) :
  database.owners label idkey id fuel g <> None.
Proof.
  unfold database.owners.
  destruct (union _ _ fuel g (database.resource label idkey id g)) eqn:E; [discriminate|].
  exfalso. revert E. apply union_terminates.
  - discriminate.
  - intros t Ht. unfold then_, repeat_.
    destruct (walk_terminates rank fuel g t Hrank Hbelow (resource_in _ _ _ _ Ht))
      as [R HR].
    now rewrite HR.
Qed.

Lemma parents_terminates (label idkey : string) (id : propval) :
  database.parents label idkey id fuel g <> None.
Proof.
  unfold database.parents.
  destruct (union _ _ fuel g (database.resource label idkey id g)) eqn:E; [discriminate|].
  exfalso. revert E. apply union_terminates.
  - discriminate.
  - intros t Ht. unfold repeat_.
    destruct (walk_terminates rank fuel g t Hrank Hbelow (resource_in _ _ _ _ Ht))
      as [R HR].
    now rewrite HR.
Qed.

Lemma query_directory_info_terminates (name : string) :
  database.query_directory_info fuel (Up g) name <> OutOfFuel.
Proof.
  unfold database.query_directory_info. cbn [toList next res_bind].
  destruct (filter _ (filter _ (vertices g))) as [|v vs]; [discriminate|].
  destruct (values "directoryId" (v :: vs)) as [|id ids]; [discriminate|].
  cbn [res_bind].
  destruct (filter _ (database.resource "directory" "directoryId" id g)) as [|w ws];
    [discriminate|].
  cbn [res_bind].
  pose proof (owners_terminates "directory" "directoryId" id) as Ho.
  pose proof (parents_terminates "directory" "directoryId" id) as Hp.
  destruct (database.owners "directory" "directoryId" id fuel g); [|contradiction].
  destruct (database.parents "directory" "directoryId" id fuel g); [|contradiction].
  cbn [option_map res_bind].
  destruct (values "isPublic" (w :: ws)); discriminate.
Qed.

Lemma query_video_info_terminates (name : string) :
  database.query_video_info fuel (Up g) name <> OutOfFuel.
Proof.
  unfold database.query_video_info. cbn [toList next res_bind].
  destruct (filter _ (filter _ (vertices g))) as [|v vs]; [discriminate|].
  destruct (values "videoId" (v :: vs)) as [|id ids]; [discriminate|].
  cbn [res_bind].
  destruct (filter _ (database.resource "video" "videoId" id g)) as [|w ws];
    [discriminate|].
  cbn [res_bind].
  pose proof (owners_terminates "video" "videoId" id) as Ho.
  pose proof (parents_terminates "video" "videoId" id) as Hp.
  destruct (database.owners "video" "videoId" id fuel g); [|contradiction].
  destruct (database.parents "video" "videoId" id fuel g); [|contradiction].
  cbn [option_map res_bind].
  destruct (values "isPublic" (w :: ws)); discriminate.
Qed.

End Ranked.

(** ** Owner closure (C1) *)

(** C1, as stated, fails: Bob's video lies in Alice's directory, which lies in
    petVideosDirectory (owner Charlie).  The union of the direct owners of
    the video and of every ancestor is bob, alice, charlie; [owner_id] is
    bob, charlie: the owner of the ancestor in the middle is not collected. *)
Lemma C1_owner_closure_counterexample :
  exists v,
    database.query_video_info 3 (Up Samples.guest) "bobDogVideo.mp4" = Ok (Some v)
    /\ Spec.ancestorChain 3 Samples.guest Samples.bobDogVideo
       = inr [Samples.aliceVideosDir; Samples.petVideosDir]
    /\ values "userId" (Spec.owners Samples.guest Samples.bobDogVideo
                                    [Samples.aliceVideosDir; Samples.petVideosDir])
       = [PStr "pool|bob"; PStr "pool|alice"; PStr "pool|charlie"]
    /\ Video.owner_id v = [PStr "pool|bob"; PStr "pool|charlie"].
Proof. eexists. repeat split; vm_compute; reflexivity. Qed.

(** C1 (amended): for every resource (directory or video) that its name
    designates, with an identifier no other vertex carries and an isPublic
    flag, and whose ancestors form a chain [c] of single parents (its parent,
    then upwards to the first directory named petVideosDirectory or to a
    directory without parent), [owner_id] of [query_directory_info] and of
    [query_video_info] is the list of user ids of the deduplicated union of
    the direct owners of the resource and the direct owners of the directory
    named petVideosDirectory when the chain reaches one.  The owners of the
    ancestors in between are not collected, so at most two vertices
    contribute: the resource and that directory. *)
Theorem C1_owner_closure (fuel maxDepth : nat) (g : graph) (name : string)
        (r : vertex) (id p : propval) (c : list vertex) :
  ancestors maxDepth g r = inr c ->
  List.length c < fuel ->
  (designates g "directory" "directoryId" name r id p ->
   exists d, database.query_directory_info fuel (Up g) name = Ok (Some d)
             /\ Directory.owner_id d
                = values "userId" (Spec.owners g r (filter (has "name" database.ROOT) c)))
  /\ (designates g "video" "videoId" name r id p ->
      exists v, database.query_video_info fuel (Up g) name = Ok (Some v)
                /\ Video.owner_id v
                   = values "userId" (Spec.owners g r (filter (has "name" database.ROOT) c)))
  /\ List.length (r :: filter (has "name" database.ROOT) c) <= 2.
Proof.
  intros Hc Hfuel.
  pose proof (ancestors_walk g maxDepth r c fuel Hc Hfuel) as HR.
  split; [|split].
  - intros Hd. eexists. split.
    + exact (query_directory_info_walk fuel g name r id p _ Hd HR).
    + reflexivity.
  - intros Hv. eexists. split.
    + exact (query_video_info_walk fuel g name r id p _ Hv HR).
    + reflexivity.
  - cbn [List.length]. pose proof (ancestors_roots g maxDepth r c Hc). lia.
Qed.

Lemma C1_owner_closure_witness :
  exists v,
    database.query_video_info 3 (Up Samples.bootstrap) "bobDogVideo.mp4" = Ok (Some v)
    /\ Video.owner_id v = [PStr "pool|bob"; PStr "pool|charlie"].
Proof.
  destruct (C1_owner_closure 3 5 Samples.bootstrap "bobDogVideo.mp4" Samples.bobDogVideo
              (PStr "vid-dog") (PBool false) [Samples.bobVideosDir; Samples.petVideosDir]
              eq_refl (le_n 3)) as (_ & Hv & _).
  destruct Hv as (v & Hq & Ho).
  - repeat split.
  - exists v. split; [exact Hq|]. rewrite Ho. reflexivity.
Defined.

(** ** Ancestor chain (C4) *)

(** C4, as stated, fails: tricksDirectory lies three levels below the root;
    its chain is bobVideosDirectory, aliceVideosDirectory, petVideosDirectory,
    and [parents_id] is dir-bob, dir-pet: the ancestor in the middle is
    missing. *)
Lemma C4_ancestor_chain_counterexample :
  exists d,
    database.query_directory_info 4 (Up Samples.deep) "tricksDirectory" = Ok (Some d)
    /\ Spec.ancestorChain 4 Samples.deep Samples.tricksDir
       = inr [Samples.bobVideosDir; Samples.aliceVideosDir; Samples.petVideosDir]
    /\ values "directoryId"
              [Samples.bobVideosDir; Samples.aliceVideosDir; Samples.petVideosDir]
       = [PStr "dir-bob"; PStr "dir-alice"; PStr "dir-pet"]
    /\ Directory.parents_id d = [PStr "dir-bob"; PStr "dir-pet"].
Proof. eexists. repeat split; vm_compute; reflexivity. Qed.

(** C4 (amended): for every resource (directory or video) that its name
    designates, with an identifier no other vertex carries and an isPublic
    flag, and whose ancestors form a chain [c] of single parents (its parent,
    then upwards to the first directory named petVideosDirectory or to a
    directory without parent), [parents_id] is the list of directory ids of
    the immediate parent followed by the directory named petVideosDirectory
    when the chain reaches one, without repetition; the ancestors in between
    are not listed.  It is the whole chain, in order, when the chain has at
    most one element, or two with that directory as the second. *)
Theorem C4_ancestor_chain (fuel maxDepth : nat) (g : graph) (name : string)
        (r : vertex) (id p : propval) (c : list vertex) :
  ancestors maxDepth g r = inr c ->
  List.length c < fuel ->
  (designates g "directory" "directoryId" name r id p ->
   exists d, database.query_directory_info fuel (Up g) name = Ok (Some d)
             /\ Directory.parents_id d
                = values "directoryId"
                         (dedup (firstn 1 c ++ filter (has "name" database.ROOT) c)))
  /\ (designates g "video" "videoId" name r id p ->
      exists v, database.query_video_info fuel (Up g) name = Ok (Some v)
                /\ Video.parents_id v
                   = values "directoryId"
                            (dedup (firstn 1 c ++ filter (has "name" database.ROOT) c)))
  /\ (List.length c <= 1
      \/ (exists a b, c = [a; b] /\ has "name" database.ROOT b = true
                      /\ same_vertex b a = false) ->
      dedup (firstn 1 c ++ filter (has "name" database.ROOT) c) = c).
Proof.
  intros Hc Hfuel.
  pose proof (ancestors_walk g maxDepth r c fuel Hc Hfuel) as HR.
  pose proof (ancestors_parent g maxDepth r c Hc) as Hout.
  split; [|split].
  - intros Hd. eexists. split.
    + exact (query_directory_info_walk fuel g name r id p _ Hd HR).
    + cbn [Directory.parents_id]. now rewrite Hout.
  - intros Hv. eexists. split.
    + exact (query_video_info_walk fuel g name r id p _ Hv HR).
    + cbn [Video.parents_id]. now rewrite Hout.
  - now apply ancestors_complete with g maxDepth r.
Qed.

Lemma C4_ancestor_chain_witness :
  exists v,
    database.query_video_info 3 (Up Samples.bootstrap) "bobDogVideo.mp4" = Ok (Some v)
    /\ Video.parents_id v = [PStr "dir-bob"; PStr "dir-pet"].
Proof.
  destruct (C4_ancestor_chain 3 5 Samples.bootstrap "bobDogVideo.mp4" Samples.bobDogVideo
              (PStr "vid-dog") (PBool false) [Samples.bobVideosDir; Samples.petVideosDir]
              eq_refl (le_n 3)) as (_ & Hv & _).
  destruct Hv as (v & Hq & Hp).
  - repeat split.
  - exists v. split; [exact Hq|]. rewrite Hp. reflexivity.
Defined.

(** ** Termination (C2) *)

Lemma cyclic_walk (fuel : nat) :
  repeat_until fuel (out "MEMBEROF" Samples.cyclic) (has "name" database.ROOT)
               [Samples.aliceVideosDir] = None
  /\ repeat_until fuel (out "MEMBEROF" Samples.cyclic) (has "name" database.ROOT)
                  [Samples.bobVideosDir] = None.
Proof.
  induction fuel as [|fuel [IHa IHb]]; [split; reflexivity|].
  rewrite !repeat_until_step.
  change (out "MEMBEROF" Samples.cyclic Samples.aliceVideosDir) with [Samples.bobVideosDir].
  change (out "MEMBEROF" Samples.cyclic Samples.bobVideosDir) with [Samples.aliceVideosDir].
  change (filter (fun w => negb (has "name" database.ROOT w)) [Samples.bobVideosDir])
    with [Samples.bobVideosDir].
  change (filter (fun w => negb (has "name" database.ROOT w)) [Samples.aliceVideosDir])
    with [Samples.aliceVideosDir].
  now rewrite IHa, IHb.
Qed.

(** C2, as stated, fails: the queries have no maximum depth and no
    CycleDetected failure.  On two directories that are members of each other
    the walk never leaves the loop: whatever number of rounds is allowed, the
    query has produced neither a result nor a failure. *)
Lemma C2_termination_counterexample :
  ~ (exists fuel,
        database.query_directory_info fuel (Up Samples.cyclic) "aliceVideosDirectory"
        <> OutOfFuel).
Proof.
  intros [fuel H]. apply H.
  apply query_directory_info_diverges
    with (r := Samples.aliceVideosDir) (id := PStr "dir-alice") (p := PBool false).
  - repeat split.
  - apply cyclic_walk.
Qed.

(** C2 (amended): on every graph in which no MEMBEROF path avoids the root
    for ever (a rank decreases along each MEMBEROF edge that does not end at
    the root), the ancestor walk from any vertex ends, each traverser stopping
    at the designated root or where no further MEMBEROF edge exists, within
    as many rounds as the rank allows, and both queries end.  There is no
    configured maximum and no CycleDetected failure. *)
Theorem C2_termination (rank : nat -> nat) (fuel : nat) (g : graph) (name : string) :
  ranked rank g = true ->
  rank_below rank fuel g = true ->
  (forall r, In r (vertices g) ->
             exists R, repeat_until fuel (out "MEMBEROF" g) (has "name" database.ROOT) [r]
                       = Some R
                       /\ forallb (has "name" database.ROOT) R = true)
  /\ database.query_directory_info fuel (Up g) name <> OutOfFuel
  /\ database.query_video_info fuel (Up g) name <> OutOfFuel.
Proof.
  intros Hrank Hbelow. split; [|split].
  - intros r Hin. destruct (walk_terminates rank fuel g r Hrank Hbelow Hin) as [R HR].
    exists R. split; [exact HR|]. now apply repeat_until_roots in HR.
  - now apply query_directory_info_terminates with rank.
  - now apply query_video_info_terminates with rank.
Qed.

Lemma C2_termination_witness :
  database.query_directory_info 3 (Up Samples.bootstrap) "bobVideosDirectory" <> OutOfFuel
  /\ database.query_video_info 3 (Up Samples.bootstrap) "bobDogVideo.mp4" <> OutOfFuel.
Proof.
  pose (rank := fun i : nat => match i with 7 | 8 => 2 | 4 | 5 => 1 | _ => 0 end).
  split.
  - apply (C2_termination rank 3 Samples.bootstrap "bobVideosDirectory"); reflexivity.
  - apply (C2_termination rank 3 Samples.bootstrap "bobDogVideo.mp4"); reflexivity.
Defined.

(** ** Branching membership (C5) *)




(** ** [attribute_value] (C9) *)

Lemma attribute_value_list (l : list pyval) :
  permissions.attribute_value (PyList l)
  = match attribute_values l with
    | Ok xs => Ok (PyDict [("set", PyList xs)])
    | Raise e => Raise e
    | OutOfFuel => OutOfFuel
    end.
Proof.
  cbn [permissions.attribute_value].
  replace ((fix each (l0 : list pyval) : res (list pyval) :=
              match l0 with
              | [] => Ok []
              | v :: r =>
                  match permissions.attribute_value v with
                  | Ok x => match each r with
                            | Ok xs => Ok (x :: xs)
                            | Raise e => Raise e
                            | OutOfFuel => OutOfFuel
                            end
                  | Raise e => Raise e
                  | OutOfFuel => OutOfFuel
                  end
              end) l) with (attribute_values l); [reflexivity|].
  induction l as [|v r IH]; cbn [attribute_values]; [reflexivity|].
  now rewrite IH.
Qed.

Lemma attribute_value_set (l : list pyval) :
  permissions.attribute_value (PySet l) = permissions.attribute_value (PyList l).
Proof. reflexivity. Qed.

(** Induction on Python values through the elements of lists and sets. *)
Lemma pyval_elements_ind (P : pyval -> Prop) :
  P PyNone -> (forall b, P (PyBool b)) -> (forall z, P (PyInt z)) ->
  (forall bits, P (PyFloat bits)) -> (forall s, P (PyStr s)) ->
  (forall l, Forall P l -> P (PyList l)) ->
  (forall l, Forall P l -> P (PySet l)) ->
  (forall l, P (PyTuple l)) ->
  (forall items, P (PyDict items)) ->
  forall v, P v.
Proof.
  intros HNone HBool HInt HFloat HStr HList HSet HTuple HDict.
  fix IH 1. intros [ | b | z | bits | s | l | l | l | items].
  - exact HNone.
  - apply HBool.
  - apply HInt.
  - apply HFloat.
  - apply HStr.
  - apply HList. induction l as [|x l IHl]; constructor; [apply IH|exact IHl].
  - apply HSet. induction l as [|x l IHl]; constructor; [apply IH|exact IHl].
  - apply HTuple.
  - apply HDict.
Qed.

(** [attribute_value] returns on the convertible values and raises
    [ValueError] on all others. *)
Lemma attribute_value_outcome (v : pyval) :
  if convertible v
  then exists x, permissions.attribute_value v = Ok x
  else exists msg, permissions.attribute_value v = Raise (ValueError msg).
Proof.
  induction v as [ | b | z | bits | s | l IH | l IH | l | items ] using pyval_elements_ind;
    cbn [convertible]; try (eexists; reflexivity).
  - rewrite attribute_value_list.
    induction l as [|v l IHl]; cbn [forallb attribute_values]; [eexists; reflexivity|].
    inversion IH as [|? ? Hv Hl]; subst. specialize (IHl Hl).
    destruct (convertible v); cbn [andb].
    + destruct Hv as [x ->].
      destruct (forallb convertible l).
      * destruct IHl as [y Hy]. destruct (attribute_values l); try discriminate.
        eexists; reflexivity.
      * destruct IHl as [msg Hmsg]. destruct (attribute_values l); try discriminate.
        inversion Hmsg. eexists; reflexivity.
    + destruct Hv as [msg ->]. eexists; reflexivity.
  - rewrite attribute_value_set, attribute_value_list.
    induction l as [|v l IHl]; cbn [forallb attribute_values]; [eexists; reflexivity|].
    inversion IH as [|? ? Hv Hl]; subst. specialize (IHl Hl).
    destruct (convertible v); cbn [andb].
    + destruct Hv as [x ->].
      destruct (forallb convertible l).
      * destruct IHl as [y Hy]. destruct (attribute_values l); try discriminate.
        eexists; reflexivity.
      * destruct IHl as [msg Hmsg]. destruct (attribute_values l); try discriminate.
        inversion Hmsg. eexists; reflexivity.
    + destruct Hv as [msg ->]. eexists; reflexivity.
Qed.

Lemma attribute_values_each (l xs : list pyval) :
  attribute_values l = Ok xs ->
  Forall2 (fun v x => permissions.attribute_value v = Ok x) l xs.
Proof.
  revert xs. induction l as [|v l IH]; intros xs H; cbn [attribute_values] in H.
  - inversion H. constructor.
  - destruct (permissions.attribute_value v) as [x| |] eqn:Hv; try discriminate.
    destruct (attribute_values l) as [ys| |]; try discriminate.
    inversion H. constructor; [exact Hv|now apply IH].
Qed.

(** C9, as stated, fails: a list is not of "any other type", yet
    [attribute_value] raises [ValueError] on a list that holds an integer. *)
Lemma C9_attribute_value_counterexample :
  permissions.attribute_value (PyList [PyInt 1])
  = Raise (ValueError "Unknown attribute value type: <class 'int'>").
Proof. reflexivity. Qed.

(** C9 (amended): [attribute_value] returns {string: v} for every str,
    {boolean: v} for every bool (a bool is not a str), {entityIdentifier: v}
    for every dict, and {set: [...]} of the converted elements for every list
    or set all of whose elements convert.  It raises [ValueError] exactly
    when the value is not convertible: it is of another type (int, float,
    None, tuple), or it is a list or set that holds, at any depth, a value
    of another type. *)
Theorem C9_attribute_value :
  (forall s, permissions.attribute_value (PyStr s) = Ok (PyDict [("string", PyStr s)]))
  /\ (forall b, permissions.attribute_value (PyBool b) = Ok (PyDict [("boolean", PyBool b)]))
  /\ (forall items, permissions.attribute_value (PyDict items)
                    = Ok (PyDict [("entityIdentifier", PyDict items)]))
  /\ (forall l, forallb convertible l = true ->
                exists xs,
                  Forall2 (fun v x => permissions.attribute_value v = Ok x) l xs
                  /\ permissions.attribute_value (PyList l) = Ok (PyDict [("set", PyList xs)])
                  /\ permissions.attribute_value (PySet l) = Ok (PyDict [("set", PyList xs)]))
  /\ (forall v, (exists msg, permissions.attribute_value v = Raise (ValueError msg))
                <-> convertible v = false)
  /\ (forall z bits l,
         convertible (PyInt z) = false /\ convertible (PyFloat bits) = false
         /\ convertible PyNone = false /\ convertible (PyTuple l) = false).
Proof.
  repeat split; try reflexivity.
  - intros l Hl. pose proof (attribute_value_outcome (PyList l)) as H.
    cbn [convertible] in H. rewrite Hl, attribute_value_list in H. destruct H as [x Hx].
    destruct (attribute_values l) as [xs| |] eqn:E; try discriminate.
    exists xs. split; [now apply attribute_values_each|].
    rewrite attribute_value_set, attribute_value_list, E. now split.
  - intros [msg Hmsg]. pose proof (attribute_value_outcome v) as H.
    destruct (convertible v); [|reflexivity]. destruct H as [x Hx]. congruence.
  - intros Hv. pose proof (attribute_value_outcome v) as H. now rewrite Hv in H.
Qed.

(** ** The decision request (C7, C8) *)

Lemma attribute_values_entity_set (entity_type : string) (ids : list propval) :
  attribute_values (permissions.entity_set entity_type ids)
  = Ok (map (fun u => PyDict [("entityIdentifier", permissions.entity entity_type u)]) ids).
Proof.
  induction ids as [|u ids IH]; [reflexivity|].
  change (permissions.entity_set entity_type (u :: ids))
    with (permissions.entity entity_type u :: permissions.entity_set entity_type ids).
  cbn [attribute_values map]. rewrite IH. reflexivity.
Qed.

Lemma owner_attribute (ids : list propval) :
  permissions.attribute_value (PyList (permissions.entity_set "User" ids))
  = Ok (PyDict [("set",
                 PyList (map (fun u => PyDict [("entityIdentifier",
                                                permissions.entity "User" u)]) ids))]).
Proof. now rewrite attribute_value_list, attribute_values_entity_set. Qed.

Lemma isPublic_attribute (x : propval) :
  permissions.attribute_value (of_prop x)
  = Ok (PyDict [(match x with PStr _ => "string" | PBool _ => "boolean" end, of_prop x)]).
Proof. destruct x; reflexivity. Qed.

Section RequestFacts.
Variables (P : string) (avp : pyval -> exn + avp_response) (token action : string).

Lemma permissions_check_token_directory_some (d : Directory.t) :
  permissions.permissions_check_token_directory P avp token action (Some d)
  = ([IsAuthorizedWithToken (directory_request P token action d)],
     of_sum (avp (directory_request P token action d))).
Proof.
  unfold permissions.permissions_check_token_directory.
  rewrite owner_attribute, isPublic_attribute.
  unfold permissions.avp_call.
  cbn [bind lift ret setitem String.eqb Ascii.eqb Bool.eqb app].
  match goal with
  | |- context [IsAuthorizedWithToken ?a] =>
      change a with (directory_request P token action d)
  end.
  destruct (avp (directory_request P token action d)) as [e|[dec pol]]; reflexivity.
Qed.

Lemma permissions_check_token_video_some (v : Video.t) :
  permissions.permissions_check_token_video P avp token action (Some v)
  = ([IsAuthorizedWithToken (video_request P token action v)],
     of_sum (avp (video_request P token action v))).
Proof.
  unfold permissions.permissions_check_token_video.
  rewrite owner_attribute, isPublic_attribute.
  unfold permissions.avp_call.
  cbn [bind lift ret setitem String.eqb Ascii.eqb Bool.eqb app].
  match goal with
  | |- context [IsAuthorizedWithToken ?a] =>
      change a with (video_request P token action v)
  end.
  destruct (avp (video_request P token action v)) as [e|[dec pol]]; reflexivity.
Qed.

Lemma permissions_check_token_directory_none :
  permissions.permissions_check_token_directory P avp token action None
  = ([IsAuthorizedWithToken (placeholder_request P token action)],
     of_sum (avp (placeholder_request P token action))).
Proof.
  unfold permissions.permissions_check_token_directory, permissions.avp_call.
  cbn [bind lift ret setitem String.eqb Ascii.eqb Bool.eqb app].
  match goal with
  | |- context [IsAuthorizedWithToken ?a] =>
      change a with (placeholder_request P token action)
  end.
  destruct (avp (placeholder_request P token action)) as [e|[dec pol]]; reflexivity.
Qed.

Lemma permissions_check_token_video_none :
  permissions.permissions_check_token_video P avp token action None
  = ([IsAuthorizedWithToken (placeholder_request P token action)],
     of_sum (avp (placeholder_request P token action))).
Proof.
  unfold permissions.permissions_check_token_video, permissions.avp_call.
  cbn [bind lift ret setitem String.eqb Ascii.eqb Bool.eqb app].
  match goal with
  | |- context [IsAuthorizedWithToken ?a] =>
      change a with (placeholder_request P token action)
  end.
  destruct (avp (placeholder_request P token action)) as [e|[dec pol]]; reflexivity.
Qed.

End RequestFacts.

(** C7: for a resolved directory or video (with its boolean [isPublic], as
    the dataclass declares it) the decision request names the resource by the
    typed identifier PetVideosApp::Directory or PetVideosApp::Video with the
    resource's id, and its entity context holds exactly one entity: that
    identifier, the two attributes [owner], the set of PetVideosApp::User
    references of the resolved owner ids, and [isPublic], a boolean, and as
    parents the resolved chain as PetVideosApp::Directory identifiers. *)
Theorem C7_entity_context (P : string) (avp : pyval -> exn + avp_response)
        (token action : string) (d : Directory.t) (v : Video.t) (b b' : bool) :
  Directory.isPublic d = PBool b ->
  Video.isPublic v = PBool b' ->
  fst (permissions.permissions_check_token_directory P avp token action (Some d))
  = [IsAuthorizedWithToken
       (PyDict
          [("policyStoreId", PyStr P);
           ("identityToken", PyStr token);
           ("action", PyDict [("actionType", PyStr "PetVideosApp::Action");
                              ("actionId", PyStr action)]);
           ("resource", typed_identifier "Directory" (Directory.directory_id d));
           ("entities", entity_context "Directory" (Directory.directory_id d)
                                       (Directory.owner_id d) (Directory.parents_id d) b)])]
  /\ fst (permissions.permissions_check_token_video P avp token action (Some v))
     = [IsAuthorizedWithToken
          (PyDict
             [("policyStoreId", PyStr P);
              ("identityToken", PyStr token);
              ("action", PyDict [("actionType", PyStr "PetVideosApp::Action");
                                 ("actionId", PyStr action)]);
              ("resource", typed_identifier "Video" (Video.video_id v));
              ("entities", entity_context "Video" (Video.video_id v)
                                          (Video.owner_id v) (Video.parents_id v) b')])].
Proof.
  intros Hd Hv. split.
  - rewrite permissions_check_token_directory_some. unfold directory_request.
    rewrite Hd. reflexivity.
  - rewrite permissions_check_token_video_some. unfold video_request.
    rewrite Hv. reflexivity.
Qed.

Lemma C7_entity_context_witness :
  fst (permissions.permissions_check_token_video
         "store-1" Requests.deny "identity" "ViewVideo"
         (Some (Video.mk (PStr "vid-dog") "bobDogVideo.mp4" Samples.bobDogVideo
                         [PStr "pool|bob"; PStr "pool|charlie"] [PStr "bob"; PStr "charlie"]
                         [PStr "dir-bob"; PStr "dir-pet"] (PBool false))))
  = [IsAuthorizedWithToken
       (PyDict
          [("policyStoreId", PyStr "store-1");
           ("identityToken", PyStr "identity");
           ("action", PyDict [("actionType", PyStr "PetVideosApp::Action");
                              ("actionId", PyStr "ViewVideo")]);
           ("resource", typed_identifier "Video" (PStr "vid-dog"));
           ("entities", entity_context "Video" (PStr "vid-dog")
                                       [PStr "pool|bob"; PStr "pool|charlie"]
                                       [PStr "dir-bob"; PStr "dir-pet"] false)])].
Proof.
  exact (proj2 (C7_entity_context
                  "store-1" Requests.deny "identity" "ViewVideo"
                  (Directory.mk (PStr "dir-pet") "petVideosDirectory" Samples.petVideosDir
                                [PStr "pool|charlie"] [PStr "charlie"] [] (PBool false))
                  (Video.mk (PStr "vid-dog") "bobDogVideo.mp4" Samples.bobDogVideo
                            [PStr "pool|bob"; PStr "pool|charlie"] [PStr "bob"; PStr "charlie"]
                            [PStr "dir-bob"; PStr "dir-pet"] (PBool false))
                  false false eq_refl eq_refl)).
Defined.

(** C8: with no resolved resource ([None]) both permission checks submit a
    request that has no [entities] key and whose [resource] is the fixed
    placeholder of type PetVideosApp::Application with id PetVideosApp. *)
Theorem C8_placeholder (P : string) (avp : pyval -> exn + avp_response)
        (token action : string) :
  let request :=
    [("policyStoreId", PyStr P);
     ("identityToken", PyStr token);
     ("action", PyDict [("actionType", PyStr "PetVideosApp::Action");
                        ("actionId", PyStr action)]);
     ("resource", PyDict [("entityType", PyStr "PetVideosApp::Application");
                          ("entityId", PyStr "PetVideosApp")])] in
  fst (permissions.permissions_check_token_directory P avp token action None)
  = [IsAuthorizedWithToken (PyDict request)]
  /\ fst (permissions.permissions_check_token_video P avp token action None)
     = [IsAuthorizedWithToken (PyDict request)]
  /\ get "entities" request = None
  /\ get "resource" request
     = Some (PyDict [("entityType", PyStr "PetVideosApp::Application");
                     ("entityId", PyStr "PetVideosApp")]).
Proof.
  cbv zeta. rewrite permissions_check_token_directory_none,
              permissions_check_token_video_none.
  repeat split.
Qed.

(** ** The handler *)

Section HandlerFacts.
Variables (P : string)
          (jwt_decode json_loads : string -> exn + list (string * string))
          (avp : pyval -> exn + avp_response)
          (fuel : nat) (g : remote).

Lemma view_directory_resolved (token action : string) (d : Directory.t) :
  main.view_directory P avp token action (Some (Some d))
  = ([IsAuthorizedWithToken (directory_request P token action d)],
     Ok (Some (answer (avp (directory_request P token action d))))).
Proof.
  unfold main.view_directory, main.read_local.
  cbn [bind ret]. rewrite permissions_check_token_directory_some.
  destruct (avp (directory_request P token action d)) as [e|[dec pol]];
    cbn [of_sum bind try_except answer decision determiningPolicies app]; [reflexivity|].
  destruct (String.eqb dec "ALLOW"); [|reflexivity].
  destruct pol as [|policy pol]; reflexivity.
Qed.

Lemma view_video_resolved (token action : string) (v : Video.t) :
  main.view_video P avp token action (Some (Some v))
  = ([IsAuthorizedWithToken (video_request P token action v)],
     Ok (Some (answer (avp (video_request P token action v))))).
Proof.
  unfold main.view_video, main.read_local.
  cbn [bind ret]. rewrite permissions_check_token_video_some.
  destruct (avp (video_request P token action v)) as [e|[dec pol]];
    cbn [of_sum bind try_except answer decision determiningPolicies app]; [reflexivity|].
  destruct (String.eqb dec "ALLOW"); [|reflexivity].
  destruct pol as [|policy pol]; reflexivity.
Qed.

Lemma view_directory_unbound (token action : string) :
  main.view_directory P avp token action None
  = ([], Ok (Some (failed (UnboundLocalError "video_dir")))).
Proof. reflexivity. Qed.

Lemma view_video_unbound (token action : string) :
  main.view_video P avp token action None
  = ([], Ok (Some (failed (UnboundLocalError "video")))).
Proof. reflexivity. Qed.

Lemma handler_enters (ev : main.event) (action : string) (dn vn : option string) :
  main.enters_check P jwt_decode json_loads ev action dn vn ->
  main.handler P jwt_decode json_loads avp fuel g ev
  = main.authorize P avp fuel g ev action dn vn.
Proof.
  intros (HP & Haction & Hknown & Htoken & Hnames).
  unfold main.handler. rewrite HP, Haction, Hknown, Htoken.
  cbn [negb bind]. rewrite Hnames. cbn [bind app].
  now destruct (main.authorize P avp fuel g ev action dn vn).
Qed.

(** The check for a request that names a directory: the video name plays
    no part. *)
Lemma authorize_directory (ev : main.event) (action name : string) (vn : option string) :
  main.truthy name = true ->
  main.authorize P avp fuel g ev action (Some name) vn
  = match database.query_directory_info fuel g name with
    | Ok None =>
        ([QueryDirectoryInfo name],
         Ok (Some (main.format_response
                     [("message", "Invalid input -- directory doesn't exist")] 400)))
    | Ok (Some d) =>
        match get "id-token" (main.headers ev) with
        | Some token =>
            if main.truthy token then
              if String.eqb action "ViewDirectory" then
                ([QueryDirectoryInfo name; QueryDirectoryInfo name;
                  IsAuthorizedWithToken (directory_request P token action d)],
                 Ok (Some (answer (avp (directory_request P token action d)))))
              else if String.eqb action "ViewVideo" then
                ([QueryDirectoryInfo name; QueryDirectoryInfo name],
                 Ok (Some (failed (UnboundLocalError "video"))))
              else ([QueryDirectoryInfo name; QueryDirectoryInfo name], Ok None)
            else
              ([QueryDirectoryInfo name],
               Ok (Some (main.format_response
                           [("message", "Access denied -- no identity token provided")]
                           401)))
        | None =>
            ([QueryDirectoryInfo name],
             Ok (Some (main.format_response
                         [("message", "Access denied -- no identity token provided")]
                         401)))
        end
    | Raise e => ([QueryDirectoryInfo name], Raise e)
    | OutOfFuel => ([QueryDirectoryInfo name], OutOfFuel)
    end.
Proof.
  intros Hname.
  unfold main.authorize, main.check_exists, main.resolve, main.query_directory_info,
    main.return_.
  cbn [main.truthy_opt main.name_of]. rewrite Hname.
  destruct (database.query_directory_info fuel g name) as [[d|]|e|];
    cbn [bind ret try_except app]; try reflexivity.
  destruct (get "id-token" (main.headers ev)) as [token|];
    cbn [main.truthy_opt negb]; [|reflexivity].
  destruct (main.truthy token); cbn [negb bind ret app main.name_of]; [|reflexivity].
  destruct (String.eqb action "ViewDirectory").
  - rewrite view_directory_resolved. reflexivity.
  - destruct (String.eqb action "ViewVideo"); [|reflexivity].
    rewrite view_video_unbound. reflexivity.
Qed.

(** The check for a request that names a video and no directory. *)
Lemma authorize_video (ev : main.event) (action name : string) (dn : option string) :
  main.truthy_opt dn = false ->
  main.truthy name = true ->
  main.authorize P avp fuel g ev action dn (Some name)
  = match database.query_video_info fuel g name with
    | Ok None =>
        ([QueryVideoInfo name],
         Ok (Some (main.format_response
                     [("message", "Invalid input -- video doesn't exist")] 400)))
    | Ok (Some v) =>
        match get "id-token" (main.headers ev) with
        | Some token =>
            if main.truthy token then
              if String.eqb action "ViewDirectory" then
                ([QueryVideoInfo name; QueryVideoInfo name],
                 Ok (Some (failed (UnboundLocalError "video_dir"))))
              else if String.eqb action "ViewVideo" then
                ([QueryVideoInfo name; QueryVideoInfo name;
                  IsAuthorizedWithToken (video_request P token action v)],
                 Ok (Some (answer (avp (video_request P token action v)))))
              else ([QueryVideoInfo name; QueryVideoInfo name], Ok None)
            else
              ([QueryVideoInfo name],
               Ok (Some (main.format_response
                           [("message", "Access denied -- no identity token provided")]
                           401)))
        | None =>
            ([QueryVideoInfo name],
             Ok (Some (main.format_response
                         [("message", "Access denied -- no identity token provided")]
                         401)))
        end
    | Raise e => ([QueryVideoInfo name], Raise e)
    | OutOfFuel => ([QueryVideoInfo name], OutOfFuel)
    end.
Proof.
  intros Hdn Hname.
  unfold main.authorize, main.check_exists, main.resolve, main.query_video_info,
    main.return_.
  rewrite Hdn. cbn [main.truthy_opt main.name_of]. rewrite Hname.
  destruct (database.query_video_info fuel g name) as [[v|]|e|];
    cbn [bind ret try_except app]; try reflexivity.
  destruct (get "id-token" (main.headers ev)) as [token|];
    cbn [main.truthy_opt negb]; [|reflexivity].
  destruct (main.truthy token); cbn [negb bind ret app main.name_of]; [|reflexivity].
  destruct (String.eqb action "ViewDirectory").
  - rewrite view_directory_unbound. reflexivity.
  - destruct (String.eqb action "ViewVideo"); [|reflexivity].
    rewrite view_video_resolved. reflexivity.
Qed.

End HandlerFacts.

Lemma query_directory_info_absent (fuel : nat) (g : graph) (name : string) :
  filter (has "name" (PStr name)) (filter (hasLabel "directory") (vertices g)) = [] ->
  database.query_directory_info fuel (Up g) name = Ok None.
Proof.
  intros H. unfold database.query_directory_info. cbn [toList res_bind]. now rewrite H.
Qed.

Lemma query_video_info_absent (fuel : nat) (g : graph) (name : string) :
  filter (has "name" (PStr name)) (filter (hasLabel "video") (vertices g)) = [] ->
  database.query_video_info fuel (Up g) name = Ok None.
Proof.
  intros H. unfold database.query_video_info. cbn [toList res_bind]. now rewrite H.
Qed.

(** ** Not-found short-circuit (C6) *)

(** C6: a request that enters the check naming a directory, or a video and
    no directory, that no vertex of the graph bears, is answered with status
    400 and the message "Invalid input -- ... doesn't exist" after the one
    existence query: no decision request is submitted.  This is not the
    answer to a refusal: when the resource exists and the policy-decision
    engine answers anything but ALLOW, the status is 401 and the message
    "Access denied -- permissions check failed". *)
Theorem C6_not_found (P : string)
        (jwt_decode json_loads : string -> exn + list (string * string))
        (avp : pyval -> exn + avp_response) (fuel : nat) (g : graph)
        (ev : main.event) (action : string) (dn vn : option string) (name : string) :
  main.enters_check P jwt_decode json_loads ev action dn vn ->
  main.truthy name = true ->
  (dn = Some name ->
   filter (has "name" (PStr name)) (filter (hasLabel "directory") (vertices g)) = [] ->
   main.handler P jwt_decode json_loads avp fuel (Up g) ev
   = ([QueryDirectoryInfo name],
      Ok (Some (message_response 400 "Invalid input -- directory doesn't exist"))))
  /\ (main.truthy_opt dn = false -> vn = Some name ->
      filter (has "name" (PStr name)) (filter (hasLabel "video") (vertices g)) = [] ->
      main.handler P jwt_decode json_loads avp fuel (Up g) ev
      = ([QueryVideoInfo name],
         Ok (Some (message_response 400 "Invalid input -- video doesn't exist"))))
  /\ (forall token d verdict policies,
        dn = Some name -> action = "ViewDirectory" ->
        get "id-token" (main.headers ev) = Some token -> main.truthy token = true ->
        database.query_directory_info fuel (Up g) name = Ok (Some d) ->
        avp (directory_request P token action d) = inr (mkResp verdict policies) ->
        String.eqb verdict "ALLOW" = false ->
        main.handler P jwt_decode json_loads avp fuel (Up g) ev
        = ([QueryDirectoryInfo name; QueryDirectoryInfo name;
            IsAuthorizedWithToken (directory_request P token action d)],
           Ok (Some (message_response 401 "Access denied -- permissions check failed"))))
  /\ (forall token v verdict policies,
        main.truthy_opt dn = false -> vn = Some name -> action = "ViewVideo" ->
        get "id-token" (main.headers ev) = Some token -> main.truthy token = true ->
        database.query_video_info fuel (Up g) name = Ok (Some v) ->
        avp (video_request P token action v) = inr (mkResp verdict policies) ->
        String.eqb verdict "ALLOW" = false ->
        main.handler P jwt_decode json_loads avp fuel (Up g) ev
        = ([QueryVideoInfo name; QueryVideoInfo name;
            IsAuthorizedWithToken (video_request P token action v)],
           Ok (Some (message_response 401 "Access denied -- permissions check failed")))).
Proof.
  intros Henters Hname.
  rewrite (handler_enters _ _ _ _ _ _ _ _ _ _ Henters).
  split; [|split; [|split]].
  - intros -> Habsent. rewrite authorize_directory by exact Hname.
    now rewrite query_directory_info_absent.
  - intros Hdn -> Habsent. rewrite authorize_video by assumption.
    now rewrite query_video_info_absent.
  - intros token d verdict policies -> -> Htoken Htruthy Hq Havp Hverdict.
    rewrite authorize_directory by exact Hname.
    rewrite Hq, Htoken, Htruthy. cbn [String.eqb Ascii.eqb Bool.eqb].
    rewrite Havp. cbn [answer decision]. now rewrite Hverdict.
  - intros token v verdict policies Hdn -> -> Htoken Htruthy Hq Havp Hverdict.
    rewrite authorize_video by assumption.
    rewrite Hq, Htoken, Htruthy. cbn [String.eqb Ascii.eqb Bool.eqb].
    rewrite Havp. cbn [answer decision]. now rewrite Hverdict.
Qed.

Lemma C6_not_found_witness :
  Requests.handler Requests.allow 3 (Up Samples.bootstrap)
                   (Requests.get_event "/video/get" [("videoName", "catVideo.mp4")])
  = ([QueryVideoInfo "catVideo.mp4"],
     Ok (Some (main.mkResponse
                 400
                 [("Content-Type", "application/json"); ("Access-Control-Allow-Origin", "*")]
                 [("message", "Invalid input -- video doesn't exist")]))).
Proof.
  apply (C6_not_found "store-1" Requests.jwt_decode Requests.json_loads Requests.allow 3
                      Samples.bootstrap
                      (Requests.get_event "/video/get" [("videoName", "catVideo.mp4")])
                      "ViewVideo" None (Some "catVideo.mp4") "catVideo.mp4");
    repeat split.
Defined.

(** ** Failures and refusals (C3) *)





(** ** Directory precedence (C10) *)




(** ** Every run of the handler *)

Lemma requested_action_cases (ev : main.event) :
  (main.requested_action ev = "ViewDirectory"
   /\ main.resource ev = "/directory/get" /\ main.httpMethod ev = "GET")
  \/ (main.requested_action ev = "ViewVideo"
      /\ main.resource ev = "/video/get" /\ main.httpMethod ev = "GET")
  \/ main.requested_action ev = "Unknown".
Proof.
  unfold main.requested_action, main.ACTIONS_get, main.ACTIONS. cbn [find fst snd].
  destruct (String.eqb "/directory/get" (main.resource ev)) eqn:Hd;
    destruct (String.eqb "GET" (main.httpMethod ev)) eqn:Hm; cbn [andb].
  - left. apply String.eqb_eq in Hd, Hm. now repeat split.
  - destruct (String.eqb "/video/get" (main.resource ev)); now (right; right).
  - destruct (String.eqb "/video/get" (main.resource ev)) eqn:Hv; cbn [andb].
    + right; left. apply String.eqb_eq in Hv, Hm. now repeat split.
    + now (right; right).
  - destruct (String.eqb "/video/get" (main.resource ev)); now (right; right).
Qed.

Lemma principal_of_token_cases
      (jwt_decode : string -> exn + list (string * string)) (ev : main.event) :
  main.principal_of_token jwt_decode ev = ([], Ok None)
  \/ main.principal_of_token jwt_decode ev = ([], Ok (Some token_broken))
  \/ exists e, main.principal_of_token jwt_decode ev = ([], Raise e).
Proof.
  unfold main.principal_of_token, lift, getitem, index, main.return_.
  destruct (get "Authorization" (main.headers ev)) as [authorization|]; cbn [bind];
    [|right; right; eauto].
  destruct (nth_error (split " " authorization) 1) as [access_token|]; cbn [bind app];
    [|right; right; eauto].
  destruct (jwt_decode access_token) as [e|jwt_claims]; cbn [of_sum bind try_except].
  - destruct e; cbn [main.is_JWTError ret app]; try (right; right; eauto; fail).
    right; left; reflexivity.
  - destruct (get "iss" jwt_claims); cbn [bind try_except main.is_JWTError app];
      [|right; right; eauto].
    destruct (get "sub" jwt_claims); cbn [bind ret try_except main.is_JWTError app];
      [|right; right; eauto].
    now left.
Qed.

Lemma request_names_cases
      (json_loads : string -> exn + list (string * string)) (ev : main.event) :
  (exists dn vn, main.request_names json_loads ev = ([], Ok (dn, vn)))
  \/ exists e, main.request_names json_loads ev = ([], Raise e).
Proof.
  unfold main.request_names, lift.
  destruct (main.truthy_opt (main.body ev)).
  - destruct (json_loads _) as [e|body]; cbn [of_sum bind ret app].
    + right. eexists. reflexivity.
    + left. do 2 eexists. reflexivity.
  - destruct (main.queryStringParameters ev) as [[|p q]|]; left; do 2 eexists; reflexivity.
Qed.

Section AuthorizeFacts.
Variables (P : string) (avp : pyval -> exn + avp_response) (fuel : nat) (g : remote).

(** The check for a request that names neither a directory nor a video. *)
Lemma authorize_no_name (ev : main.event) (action : string) (dn vn : option string) :
  main.truthy_opt dn = false ->
  main.truthy_opt vn = false ->
  main.authorize P avp fuel g ev action dn vn
  = if main.truthy_opt (get "id-token" (main.headers ev)) then
      if String.eqb action "ViewDirectory" then
        ([], Ok (Some (failed (UnboundLocalError "video_dir"))))
      else if String.eqb action "ViewVideo" then
        ([], Ok (Some (failed (UnboundLocalError "video"))))
      else ([], Ok None)
    else ([], Ok (Some no_identity_token)).
Proof.
  intros Hdn Hvn.
  unfold main.authorize, main.check_exists, main.resolve, main.return_.
  rewrite Hdn, Hvn. cbn [bind ret app].
  destruct (main.truthy_opt (get "id-token" (main.headers ev)));
    cbn [negb bind ret try_except app]; [|reflexivity].
  destruct (String.eqb action "ViewDirectory"); [reflexivity|].
  destruct (String.eqb action "ViewVideo"); reflexivity.
Qed.

Lemma authorize_handled (ev : main.event) (action : string) (dn vn : option string) :
  action = "ViewDirectory" \/ action = "ViewVideo" ->
  handled P avp fuel g (main.authorize P avp fuel g ev action dn vn).
Proof.
  intros Haction.
  destruct (main.truthy_opt dn) eqn:Hdn.
  - destruct dn as [name|]; [|discriminate]. cbn [main.truthy_opt] in Hdn.
    rewrite authorize_directory by exact Hdn.
    destruct (database.query_directory_info fuel g name) as [[d|]|e|] eqn:Hq;
      try (now constructor).
    destruct (get "id-token" (main.headers ev)) as [token|];
      [|now apply handled_directory_no_token with d].
    destruct (main.truthy token) eqn:Htoken; [|now apply handled_directory_no_token with d].
    destruct Haction as [-> | ->]; cbn [String.eqb Ascii.eqb Bool.eqb].
    + now apply handled_directory_decided.
    + now apply handled_directory_other_route with d.
  - destruct (main.truthy_opt vn) eqn:Hvn.
    + destruct vn as [name|]; [|discriminate]. cbn [main.truthy_opt] in Hvn.
      rewrite authorize_video by assumption.
      destruct (database.query_video_info fuel g name) as [[v|]|e|] eqn:Hq;
        try (now constructor).
      destruct (get "id-token" (main.headers ev)) as [token|];
        [|now apply handled_video_no_token with v].
      destruct (main.truthy token) eqn:Htoken; [|now apply handled_video_no_token with v].
      destruct Haction as [-> | ->]; cbn [String.eqb Ascii.eqb Bool.eqb].
      * now apply handled_video_other_route with v.
      * now apply handled_video_decided.
    + rewrite authorize_no_name by assumption.
      destruct (main.truthy_opt (get "id-token" (main.headers ev))); [|constructor].
      destruct Haction as [-> | ->]; cbn [String.eqb Ascii.eqb Bool.eqb]; constructor.
Qed.

End AuthorizeFacts.

(** Whatever the event, the run of the handler is one of the runs listed in
    [handled]. *)
Lemma handler_handled (P : string)
      (jwt_decode json_loads : string -> exn + list (string * string))
      (avp : pyval -> exn + avp_response) (fuel : nat) (g : remote) (ev : main.event) :
  handled P avp fuel g (main.handler P jwt_decode json_loads avp fuel g ev).
Proof.
  unfold main.handler, main.return_.
  destruct (main.truthy P); cbn [negb]; [|constructor].
  destruct (requested_action_cases ev) as [(Ha & _)|[(Ha & _)|Ha]];
    rewrite Ha; cbn [String.eqb Ascii.eqb Bool.eqb]; try constructor.
  - destruct (principal_of_token_cases jwt_decode ev) as [Hp|[Hp|[e Hp]]];
      rewrite Hp; cbn [bind ret app]; try constructor.
    destruct (request_names_cases json_loads ev) as [(dn & vn & Hn)|[e Hn]];
      rewrite Hn; cbn [bind app]; [|constructor].
    pose proof (authorize_handled P avp fuel g ev "ViewDirectory" dn vn (or_introl eq_refl)) as H.
    now destruct (main.authorize P avp fuel g ev "ViewDirectory" dn vn).
  - destruct (principal_of_token_cases jwt_decode ev) as [Hp|[Hp|[e Hp]]];
      rewrite Hp; cbn [bind ret app]; try constructor.
    destruct (request_names_cases json_loads ev) as [(dn & vn & Hn)|[e Hn]];
      rewrite Hn; cbn [bind app]; [|constructor].
    pose proof (authorize_handled P avp fuel g ev "ViewVideo" dn vn (or_intror eq_refl)) as H.
    now destruct (main.authorize P avp fuel g ev "ViewVideo" dn vn).
Qed.

(** ** More on the handler *)

Lemma answer_allowed (x : exn + avp_response) :
  main.statusCode (answer x) = 200%Z ->
  exists resp policy rest,
    x = inr resp /\ decision resp = "ALLOW"
    /\ determiningPolicies resp = policy :: rest /\ answer x = allowed policy.
Proof.
  destruct x as [e|resp]; cbn [answer]; [discriminate|].
  destruct (String.eqb (decision resp) "ALLOW") eqn:Hd; [|discriminate].
  destruct (determiningPolicies resp) as [|policy rest] eqn:Hp; [discriminate|].
  intros _. exists resp, policy, rest. apply String.eqb_eq in Hd. now repeat split.
Qed.

(** X1: the handler answers 200 only on the word of the policy-decision
    engine: when it does, its last call was a decision request that the
    engine answered ALLOW with at least one determining policy, and the
    message names the first of them. *)
Theorem handler_allows_only_on_ALLOW (P : string)
        (jwt_decode json_loads : string -> exn + list (string * string))
        (avp : pyval -> exn + avp_response) (fuel : nat) (g : remote)
        (ev : main.event) (r : main.response) :
  snd (main.handler P jwt_decode json_loads avp fuel g ev) = Ok (Some r) ->
  main.statusCode r = 200%Z ->
  exists q req resp policy rest,
    fst (main.handler P jwt_decode json_loads avp fuel g ev)
    = [q; q; IsAuthorizedWithToken req]
    /\ avp req = inr resp
    /\ decision resp = "ALLOW"
    /\ determiningPolicies resp = policy :: rest
    /\ r = allowed policy.
Proof.
  intros Hr H200.
  destruct (handler_handled P jwt_decode json_loads avp fuel g ev);
    cbn [fst snd] in *; try discriminate;
    inversion Hr; subst r; clear Hr; try discriminate.
  - destruct (answer_allowed _ H200) as (resp & policy & rest & Hx & Hd & Hp & Ha).
    exists (QueryDirectoryInfo name), (directory_request P token "ViewDirectory" d),
      resp, policy, rest.
    now repeat split.
  - destruct (answer_allowed _ H200) as (resp & policy & rest & Hx & Hd & Hp & Ha).
    exists (QueryVideoInfo name), (video_request P token "ViewVideo" v),
      resp, policy, rest.
    now repeat split.
Qed.

Lemma handler_allows_only_on_ALLOW_witness :
  exists q req resp policy rest,
    fst (Requests.handler Requests.allow 3 (Up Samples.bootstrap) Requests.pet_directory)
    = [q; q; IsAuthorizedWithToken req]
    /\ Requests.allow req = inr resp
    /\ decision resp = "ALLOW"
    /\ determiningPolicies resp = policy :: rest
    /\ allowed "policy-0" = allowed policy.
Proof.
  apply (handler_allows_only_on_ALLOW
           "store-1" Requests.jwt_decode Requests.json_loads Requests.allow 3
           (Up Samples.bootstrap) Requests.pet_directory (allowed "policy-0"));
    reflexivity.
Defined.

Lemma handled_calls (P : string) (avp : pyval -> exn + avp_response) (fuel : nat)
      (g : remote) (w : W (option main.response)) :
  handled P avp fuel g w ->
  (existsb decision_request (fst w) = true ->
   exists q req, store_query q = true /\ fst w = [q; q; IsAuthorizedWithToken req])
  /\ (existsb decision_request (fst w) = false -> List.length (fst w) <= 2)
  /\ ((exists r, snd w = Ok (Some r)) \/ existsb decision_request (fst w) = false).
Proof.
  intros H.
  destruct H as [ | | | e | | var | name Hq | name e Hq | name Hq | name d Hq
                  | name token d Hq Ht | name d Hq | name Hq | name e Hq | name Hq
                  | name v Hq | name token v Hq Ht | name v Hq ];
    cbn [fst snd existsb decision_request orb List.length];
    (split; [|split]);
    try (intros H; discriminate H); try (intros _; lia); try (now right).
  - intros _. exists (QueryDirectoryInfo name), (directory_request P token "ViewDirectory" d).
    now split.
  - left. eexists. reflexivity.
  - intros _. exists (QueryVideoInfo name), (video_request P token "ViewVideo" v).
    now split.
  - left. eexists. reflexivity.
Qed.

(** X2: the calls of one run of the handler.  A decision request is made at
    most once, as the last call, after exactly two queries of the store for
    the same name (the existence check and the resolution); a run without a
    decision request makes at most two calls; and a run that does not end
    with a response (it raises, or is still walking the graph) has made no
    decision request. *)
Theorem handler_calls (P : string)
        (jwt_decode json_loads : string -> exn + list (string * string))
        (avp : pyval -> exn + avp_response) (fuel : nat) (g : remote) (ev : main.event) :
  (existsb decision_request (fst (main.handler P jwt_decode json_loads avp fuel g ev)) = true ->
   exists q req,
     store_query q = true
     /\ fst (main.handler P jwt_decode json_loads avp fuel g ev)
        = [q; q; IsAuthorizedWithToken req])
  /\ (existsb decision_request (fst (main.handler P jwt_decode json_loads avp fuel g ev)) = false ->
      List.length (fst (main.handler P jwt_decode json_loads avp fuel g ev)) <= 2)
  /\ ((exists r, snd (main.handler P jwt_decode json_loads avp fuel g ev) = Ok (Some r))
      \/ existsb decision_request
                 (fst (main.handler P jwt_decode json_loads avp fuel g ev)) = false).
Proof. apply handled_calls with P avp fuel g. apply handler_handled. Qed.

Section BetweenFacts.
Variables (P : string)
          (jwt_decode json_loads : string -> exn + list (string * string))
          (avp : pyval -> exn + avp_response)
          (fuel : nat) (g g' : remote).

Lemma view_directory_missing (token action : string) :
  main.view_directory P avp token action (Some None)
  = ([IsAuthorizedWithToken (placeholder_request P token action)],
     Ok (Some (answer (avp (placeholder_request P token action))))).
Proof.
  unfold main.view_directory, main.read_local.
  cbn [bind ret]. rewrite permissions_check_token_directory_none.
  destruct (avp (placeholder_request P token action)) as [e|[dec pol]];
    cbn [of_sum bind try_except answer decision determiningPolicies app]; [reflexivity|].
  destruct (String.eqb dec "ALLOW"); [|reflexivity].
  destruct pol as [|policy pol]; reflexivity.
Qed.

Lemma view_video_missing (token action : string) :
  main.view_video P avp token action (Some None)
  = ([IsAuthorizedWithToken (placeholder_request P token action)],
     Ok (Some (answer (avp (placeholder_request P token action))))).
Proof.
  unfold main.view_video, main.read_local.
  cbn [bind ret]. rewrite permissions_check_token_video_none.
  destruct (avp (placeholder_request P token action)) as [e|[dec pol]];
    cbn [of_sum bind try_except answer decision determiningPolicies app]; [reflexivity|].
  destruct (String.eqb dec "ALLOW"); [|reflexivity].
  destruct pol as [|policy pol]; reflexivity.
Qed.

Lemma authorize_between_same (ev : main.event) (action : string) (dn vn : option string) :
  authorize_between P avp fuel g g ev action dn vn = main.authorize P avp fuel g ev action dn vn.
Proof. reflexivity. Qed.

Lemma handler_between_same (ev : main.event) :
  handler_between P jwt_decode json_loads avp fuel g g ev
  = main.handler P jwt_decode json_loads avp fuel g ev.
Proof. reflexivity. Qed.

Lemma handler_between_enters (ev : main.event) (action : string) (dn vn : option string) :
  main.enters_check P jwt_decode json_loads ev action dn vn ->
  handler_between P jwt_decode json_loads avp fuel g g' ev
  = authorize_between P avp fuel g g' ev action dn vn.
Proof.
  intros (HP & Haction & Hknown & Htoken & Hnames).
  unfold handler_between. rewrite HP, Haction, Hknown, Htoken.
  cbn [negb bind]. rewrite Hnames. cbn [bind app].
  now destruct (authorize_between P avp fuel g g' ev action dn vn).
Qed.

(** The check for a request that names a directory, the store holding [g]
    at the existence check and [g'] at the resolution. *)
Lemma authorize_between_directory (ev : main.event) (action name : string)
      (vn : option string) :
  main.truthy name = true ->
  authorize_between P avp fuel g g' ev action (Some name) vn
  = match database.query_directory_info fuel g name with
    | Ok None =>
        ([QueryDirectoryInfo name],
         Ok (Some (message_response 400 "Invalid input -- directory doesn't exist")))
    | Ok (Some _) =>
        match get "id-token" (main.headers ev) with
        | Some token =>
            if main.truthy token then
              match database.query_directory_info fuel g' name with
              | Ok x =>
                  if String.eqb action "ViewDirectory" then
                    let req := match x with
                               | Some d => directory_request P token action d
                               | None => placeholder_request P token action
                               end in
                    ([QueryDirectoryInfo name; QueryDirectoryInfo name;
                      IsAuthorizedWithToken req],
                     Ok (Some (answer (avp req))))
                  else if String.eqb action "ViewVideo" then
                    ([QueryDirectoryInfo name; QueryDirectoryInfo name],
                     Ok (Some (failed (UnboundLocalError "video"))))
                  else ([QueryDirectoryInfo name; QueryDirectoryInfo name], Ok None)
              | Raise e =>
                  if main.is_JWTError e then
                    ([QueryDirectoryInfo name; QueryDirectoryInfo name],
                     Ok (Some (message_response 401 "Access denied -- token broken")))
                  else ([QueryDirectoryInfo name; QueryDirectoryInfo name], Raise e)
              | OutOfFuel => ([QueryDirectoryInfo name; QueryDirectoryInfo name], OutOfFuel)
              end
            else
              ([QueryDirectoryInfo name],
               Ok (Some (message_response 401 "Access denied -- no identity token provided")))
        | None =>
            ([QueryDirectoryInfo name],
             Ok (Some (message_response 401 "Access denied -- no identity token provided")))
        end
    | Raise e => ([QueryDirectoryInfo name], Raise e)
    | OutOfFuel => ([QueryDirectoryInfo name], OutOfFuel)
    end.
Proof.
  intros Hname.
  unfold authorize_between, main.check_exists, main.resolve, main.query_directory_info,
    main.return_.
  cbn [main.truthy_opt main.name_of]. rewrite Hname.
  destruct (database.query_directory_info fuel g name) as [[d|]|e|];
    cbn [bind ret try_except app]; try reflexivity.
  destruct (get "id-token" (main.headers ev)) as [token|];
    cbn [main.truthy_opt negb]; [|reflexivity].
  destruct (main.truthy token); cbn [negb bind ret app main.name_of]; [|reflexivity].
  destruct (database.query_directory_info fuel g' name) as [x|e|];
    cbn [bind ret try_except app]; [| |reflexivity].
  - destruct (String.eqb action "ViewDirectory").
    + destruct x as [d'|];
        [rewrite view_directory_resolved|rewrite view_directory_missing]; reflexivity.
    + destruct (String.eqb action "ViewVideo"); [|reflexivity].
      rewrite view_video_unbound. reflexivity.
  - destruct (main.is_JWTError e); reflexivity.
Qed.

Lemma authorize_between_video (ev : main.event) (action name : string)
      (dn : option string) :
  main.truthy_opt dn = false ->
  main.truthy name = true ->
  authorize_between P avp fuel g g' ev action dn (Some name)
  = match database.query_video_info fuel g name with
    | Ok None =>
        ([QueryVideoInfo name],
         Ok (Some (message_response 400 "Invalid input -- video doesn't exist")))
    | Ok (Some _) =>
        match get "id-token" (main.headers ev) with
        | Some token =>
            if main.truthy token then
              match database.query_video_info fuel g' name with
              | Ok x =>
                  if String.eqb action "ViewDirectory" then
                    ([QueryVideoInfo name; QueryVideoInfo name],
                     Ok (Some (failed (UnboundLocalError "video_dir"))))
                  else if String.eqb action "ViewVideo" then
                    let req := match x with
                               | Some v => video_request P token action v
                               | None => placeholder_request P token action
                               end in
                    ([QueryVideoInfo name; QueryVideoInfo name; IsAuthorizedWithToken req],
                     Ok (Some (answer (avp req))))
                  else ([QueryVideoInfo name; QueryVideoInfo name], Ok None)
              | Raise e =>
                  if main.is_JWTError e then
                    ([QueryVideoInfo name; QueryVideoInfo name],
                     Ok (Some (message_response 401 "Access denied -- token broken")))
                  else ([QueryVideoInfo name; QueryVideoInfo name], Raise e)
              | OutOfFuel => ([QueryVideoInfo name; QueryVideoInfo name], OutOfFuel)
              end
            else
              ([QueryVideoInfo name],
               Ok (Some (message_response 401 "Access denied -- no identity token provided")))
        | None =>
            ([QueryVideoInfo name],
             Ok (Some (message_response 401 "Access denied -- no identity token provided")))
        end
    | Raise e => ([QueryVideoInfo name], Raise e)
    | OutOfFuel => ([QueryVideoInfo name], OutOfFuel)
    end.
Proof.
  intros Hdn Hname.
  unfold authorize_between, main.check_exists, main.resolve, main.query_video_info,
    main.return_.
  rewrite Hdn. cbn [main.truthy_opt main.name_of]. rewrite Hname.
  destruct (database.query_video_info fuel g name) as [[v|]|e|];
    cbn [bind ret try_except app]; try reflexivity.
  destruct (get "id-token" (main.headers ev)) as [token|];
    cbn [main.truthy_opt negb]; [|reflexivity].
  destruct (main.truthy token); cbn [negb bind ret app main.name_of]; [|reflexivity].
  destruct (database.query_video_info fuel g' name) as [x|e|];
    cbn [bind ret try_except app]; [| |reflexivity].
  - destruct (String.eqb action "ViewDirectory").
    + rewrite view_directory_unbound. reflexivity.
    + destruct (String.eqb action "ViewVideo"); [|reflexivity].
      destruct x as [v'|];
        [rewrite view_video_resolved|rewrite view_video_missing]; reflexivity.
  - destruct (main.is_JWTError e); reflexivity.
Qed.

Lemma authorize_between_no_name (ev : main.event) (action : string) (dn vn : option string) :
  main.truthy_opt dn = false ->
  main.truthy_opt vn = false ->
  forall req,
    ~ In (IsAuthorizedWithToken req) (fst (authorize_between P avp fuel g g' ev action dn vn)).
Proof.
  intros Hdn Hvn.
  unfold authorize_between, main.check_exists, main.resolve, main.return_.
  rewrite Hdn, Hvn. cbn [bind ret app].
  destruct (main.truthy_opt (get "id-token" (main.headers ev)));
    cbn [negb bind ret try_except app]; [|intros req []].
  destruct (String.eqb action "ViewDirectory"); [intros req []|].
  destruct (String.eqb action "ViewVideo"); intros req [].
Qed.

(** Where the requests of a check come from. *)
Lemma authorize_between_requests (ev : main.event) (action : string)
      (dn vn : option string) (req : pyval) :
  In (IsAuthorizedWithToken req) (fst (authorize_between P avp fuel g g' ev action dn vn)) ->
  (exists name token d,
      database.query_directory_info fuel g' name = Ok (Some d)
      /\ req = directory_request P token "ViewDirectory" d)
  \/ (exists name token v,
         database.query_video_info fuel g' name = Ok (Some v)
         /\ req = video_request P token "ViewVideo" v)
  \/ (exists name token d,
         database.query_directory_info fuel g name = Ok (Some d)
         /\ database.query_directory_info fuel g' name = Ok None
         /\ req = placeholder_request P token "ViewDirectory")
  \/ (exists name token v,
         database.query_video_info fuel g name = Ok (Some v)
         /\ database.query_video_info fuel g' name = Ok None
         /\ req = placeholder_request P token "ViewVideo").
Proof.
  destruct (main.truthy_opt dn) eqn:Hdn.
  - destruct dn as [name|]; [|discriminate]. cbn [main.truthy_opt] in Hdn.
    rewrite authorize_between_directory by exact Hdn.
    destruct (database.query_directory_info fuel g name) as [[d|]|e|] eqn:Hq;
      try (cbn [fst In]; intros [H|[]]; discriminate H).
    destruct (get "id-token" (main.headers ev)) as [token|];
      [|cbn [fst In]; intros [H|[]]; discriminate H].
    destruct (main.truthy token); [|cbn [fst In]; intros [H|[]]; discriminate H].
    destruct (database.query_directory_info fuel g' name) as [x|e|] eqn:Hq'.
    + destruct (String.eqb action "ViewDirectory") eqn:Ha.
      * apply String.eqb_eq in Ha. subst action. cbv zeta. cbn [fst In].
        intros [H|[H|[H|[]]]]; try discriminate H. inversion H; subst req.
        destruct x as [d'|].
        -- left. now exists name, token, d'.
        -- right; right; left. now exists name, token, d.
      * destruct (String.eqb action "ViewVideo");
          cbn [fst In]; intros [H|[H|[]]]; discriminate H.
    + destruct (main.is_JWTError e); cbn [fst In]; intros [H|[H|[]]]; discriminate H.
    + cbn [fst In]; intros [H|[H|[]]]; discriminate H.
  - destruct (main.truthy_opt vn) eqn:Hvn.
    + destruct vn as [name|]; [|discriminate]. cbn [main.truthy_opt] in Hvn.
      rewrite authorize_between_video by assumption.
      destruct (database.query_video_info fuel g name) as [[v|]|e|] eqn:Hq;
        try (cbn [fst In]; intros [H|[]]; discriminate H).
      destruct (get "id-token" (main.headers ev)) as [token|];
        [|cbn [fst In]; intros [H|[]]; discriminate H].
      destruct (main.truthy token); [|cbn [fst In]; intros [H|[]]; discriminate H].
      destruct (database.query_video_info fuel g' name) as [x|e|] eqn:Hq'.
      * destruct (String.eqb action "ViewDirectory") eqn:Ha;
          [cbn [fst In]; intros [H|[H|[]]]; discriminate H|].
        destruct (String.eqb action "ViewVideo") eqn:Hb;
          [|cbn [fst In]; intros [H|[H|[]]]; discriminate H].
        apply String.eqb_eq in Hb. subst action. cbv zeta. cbn [fst In].
        intros [H|[H|[H|[]]]]; try discriminate H. inversion H; subst req.
        destruct x as [v'|].
        -- right; left. now exists name, token, v'.
        -- right; right; right. now exists name, token, v.
      * destruct (main.is_JWTError e); cbn [fst In]; intros [H|[H|[]]]; discriminate H.
      * cbn [fst In]; intros [H|[H|[]]]; discriminate H.
    + intros H. now apply authorize_between_no_name in H.
Qed.

Lemma handler_between_requests (ev : main.event) (req : pyval) :
  In (IsAuthorizedWithToken req)
     (fst (handler_between P jwt_decode json_loads avp fuel g g' ev)) ->
  exists action dn vn,
    In (IsAuthorizedWithToken req) (fst (authorize_between P avp fuel g g' ev action dn vn)).
Proof.
  unfold handler_between, main.return_.
  destruct (main.truthy P); cbn [negb]; [|intros []].
  destruct (String.eqb (main.requested_action ev) "Unknown"); [intros []|].
  destruct (principal_of_token_cases jwt_decode ev) as [Hp|[Hp|[e Hp]]];
    rewrite Hp; cbn [bind ret app fst]; try (intros []).
  destruct (request_names_cases json_loads ev) as [(dn & vn & Hn)|[e Hn]];
    rewrite Hn; cbn [bind app fst]; [|intros []].
  intros H. exists (main.requested_action ev), dn, vn.
  now destruct (authorize_between P avp fuel g g' ev (main.requested_action ev) dn vn).
Qed.

End BetweenFacts.

(** X3: the decision requests of the handler, the store being read twice
    (the existence check, then the resolution, whose result is not checked).
    Every decision request is for the resource as the second read resolved
    it, a directory on the directory route and a video on the video route,
    or it is the placeholder request (no resource), and then the first read
    found the resource and the second did not.  Conversely, a resource that
    is there at the first read and gone at the second is asked about with
    the placeholder request.  When both reads see the same graph the run is
    that of the handler, and the placeholder request is never submitted. *)
Theorem handler_requests_resolved (P : string)
        (jwt_decode json_loads : string -> exn + list (string * string))
        (avp : pyval -> exn + avp_response) (fuel : nat) (g g' : remote)
        (ev : main.event) :
  (forall req,
      In (IsAuthorizedWithToken req)
         (fst (handler_between P jwt_decode json_loads avp fuel g g' ev)) ->
      (exists name token d,
          database.query_directory_info fuel g' name = Ok (Some d)
          /\ req = directory_request P token "ViewDirectory" d)
      \/ (exists name token v,
             database.query_video_info fuel g' name = Ok (Some v)
             /\ req = video_request P token "ViewVideo" v)
      \/ (exists name token d,
             database.query_directory_info fuel g name = Ok (Some d)
             /\ database.query_directory_info fuel g' name = Ok None
             /\ req = placeholder_request P token "ViewDirectory")
      \/ (exists name token v,
             database.query_video_info fuel g name = Ok (Some v)
             /\ database.query_video_info fuel g' name = Ok None
             /\ req = placeholder_request P token "ViewVideo"))
  /\ (forall dn vn name token d,
        main.enters_check P jwt_decode json_loads ev "ViewDirectory" dn vn ->
        dn = Some name -> main.truthy name = true ->
        get "id-token" (main.headers ev) = Some token -> main.truthy token = true ->
        database.query_directory_info fuel g name = Ok (Some d) ->
        database.query_directory_info fuel g' name = Ok None ->
        handler_between P jwt_decode json_loads avp fuel g g' ev
        = ([QueryDirectoryInfo name; QueryDirectoryInfo name;
            IsAuthorizedWithToken (placeholder_request P token "ViewDirectory")],
           Ok (Some (answer (avp (placeholder_request P token "ViewDirectory"))))))
  /\ (forall dn vn name token v,
        main.enters_check P jwt_decode json_loads ev "ViewVideo" dn vn ->
        main.truthy_opt dn = false -> vn = Some name -> main.truthy name = true ->
        get "id-token" (main.headers ev) = Some token -> main.truthy token = true ->
        database.query_video_info fuel g name = Ok (Some v) ->
        database.query_video_info fuel g' name = Ok None ->
        handler_between P jwt_decode json_loads avp fuel g g' ev
        = ([QueryVideoInfo name; QueryVideoInfo name;
            IsAuthorizedWithToken (placeholder_request P token "ViewVideo")],
           Ok (Some (answer (avp (placeholder_request P token "ViewVideo"))))))
  /\ (g' = g ->
      handler_between P jwt_decode json_loads avp fuel g g' ev
      = main.handler P jwt_decode json_loads avp fuel g ev
      /\ forall req token action,
          In (IsAuthorizedWithToken req)
             (fst (main.handler P jwt_decode json_loads avp fuel g ev)) ->
          req <> placeholder_request P token action).
Proof.
  split; [|split; [|split]].
  - intros req Hin.
    destruct (handler_between_requests _ _ _ _ _ _ _ _ _ Hin) as (action & dn & vn & H).
    exact (authorize_between_requests _ _ _ _ _ _ _ _ _ _ H).
  - intros dn vn name token d Henters -> Hname Htoken Htruthy Hq Hq'.
    rewrite (handler_between_enters _ _ _ _ _ _ _ _ _ _ _ Henters).
    rewrite authorize_between_directory by exact Hname.
    now rewrite Hq, Htoken, Htruthy, Hq'.
  - intros dn vn name token v Henters Hdn -> Hname Htoken Htruthy Hq Hq'.
    rewrite (handler_between_enters _ _ _ _ _ _ _ _ _ _ _ Henters).
    rewrite authorize_between_video by assumption.
    now rewrite Hq, Htoken, Htruthy, Hq'.
  - intros ->. split; [reflexivity|].
    intros req token action Hin ->.
    change (main.handler P jwt_decode json_loads avp fuel g ev)
      with (handler_between P jwt_decode json_loads avp fuel g g ev) in Hin.
    destruct (handler_between_requests _ _ _ _ _ _ _ _ _ Hin) as (action' & dn & vn & H).
    destruct (authorize_between_requests _ _ _ _ _ _ _ _ _ _ H)
      as [(name & token' & d & _ & Hreq)|[(name & token' & v & _ & Hreq)
          |[(name & token' & d & Hq & Hq' & _)|(name & token' & v & Hq & Hq' & _)]]].
    + unfold directory_request, placeholder_request in Hreq. discriminate Hreq.
    + unfold video_request, placeholder_request in Hreq. discriminate Hreq.
    + rewrite Hq in Hq'. discriminate Hq'.
    + rewrite Hq in Hq'. discriminate Hq'.
Qed.

(** Bob's directory, there at the existence check and removed before the
    resolution: the engine is asked about the placeholder, and its ALLOW is
    the answer. *)
Lemma handler_requests_resolved_witness :
  handler_between "store-1" Requests.jwt_decode Requests.json_loads Requests.allow 3
                  (Up Samples.bootstrap) (Up Samples.guest)
                  (Requests.get_event "/directory/get"
                                      [("directoryName", "bobVideosDirectory")])
  = ([QueryDirectoryInfo "bobVideosDirectory"; QueryDirectoryInfo "bobVideosDirectory";
      IsAuthorizedWithToken (placeholder_request "store-1" "identity" "ViewDirectory")],
     Ok (Some (main.mkResponse
                 200
                 [("Content-Type", "application/json"); ("Access-Control-Allow-Origin", "*")]
                 [("message", "Access allowed -- determining policy id is policy-0")]))).
Proof.
  apply (proj1 (proj2 (handler_requests_resolved
                         "store-1" Requests.jwt_decode Requests.json_loads Requests.allow 3
                         (Up Samples.bootstrap) (Up Samples.guest)
                         (Requests.get_event "/directory/get"
                                             [("directoryName", "bobVideosDirectory")]))))
    with (dn := Some "bobVideosDirectory") (vn := None)
         (d := Directory.mk (PStr "dir-bob") "bobVideosDirectory" Samples.bobVideosDir
                            [PStr "pool|bob"; PStr "pool|charlie"] [PStr "bob"; PStr "charlie"]
                            [PStr "dir-pet"] (PBool false));
    repeat split.
Defined.

(** X4: a run of the handler that returns, returns a response: the handler
    never falls off its end (returning None), since an action that passed
    the route check is ViewDirectory or ViewVideo. *)
Theorem handler_returns_response (P : string)
        (jwt_decode json_loads : string -> exn + list (string * string))
        (avp : pyval -> exn + avp_response) (fuel : nat) (g : remote) (ev : main.event) :
  snd (main.handler P jwt_decode json_loads avp fuel g ev) <> Ok None.
Proof.
  destruct (handler_handled P jwt_decode json_loads avp fuel g ev); cbn [snd]; discriminate.
Qed.

Lemma principal_of_token_decoded
      (jwt_decode : string -> exn + list (string * string)) (ev : main.event)
      (authorization access_token : string) (jwt_claims : list (string * string)) :
  get "Authorization" (main.headers ev) = Some authorization ->
  nth_error (split " " authorization) 1 = Some access_token ->
  jwt_decode access_token = inr jwt_claims ->
  get "iss" jwt_claims <> None ->
  get "sub" jwt_claims <> None ->
  main.principal_of_token jwt_decode ev = ([], Ok None).
Proof.
  intros Ha Ht Hj Hi Hs.
  unfold main.principal_of_token, lift, getitem, index.
  rewrite Ha. cbn [bind]. rewrite Ht. cbn [bind]. rewrite Hj. cbn [of_sum bind].
  destruct (get "iss" jwt_claims); [|contradiction].
  destruct (get "sub" jwt_claims); [|contradiction].
  reflexivity.
Qed.

(** X5: the claims of the access token play no part in the answer.  The
    handler decodes the token and reads [iss] and [sub], which must be
    there, but two decodings that differ in every value lead to the same
    calls and the same answer: only the identity token reaches the
    policy-decision engine. *)
Theorem handler_ignores_claims (P : string)
        (jwt_decode jwt_decode' json_loads : string -> exn + list (string * string))
        (avp : pyval -> exn + avp_response) (fuel : nat) (g : remote) (ev : main.event)
        (authorization access_token : string) (jwt_claims jwt_claims' : list (string * string)) :
  get "Authorization" (main.headers ev) = Some authorization ->
  nth_error (split " " authorization) 1 = Some access_token ->
  jwt_decode access_token = inr jwt_claims ->
  jwt_decode' access_token = inr jwt_claims' ->
  get "iss" jwt_claims <> None -> get "sub" jwt_claims <> None ->
  get "iss" jwt_claims' <> None -> get "sub" jwt_claims' <> None ->
  main.handler P jwt_decode json_loads avp fuel g ev
  = main.handler P jwt_decode' json_loads avp fuel g ev.
Proof.
  intros Ha Ht Hj Hj' Hi Hs Hi' Hs'.
  unfold main.handler.
  rewrite (principal_of_token_decoded jwt_decode ev _ _ _ Ha Ht Hj Hi Hs).
  rewrite (principal_of_token_decoded jwt_decode' ev _ _ _ Ha Ht Hj' Hi' Hs').
  reflexivity.
Qed.

Lemma handler_ignores_claims_witness :
  Requests.handler Requests.deny 3 (Up Samples.bootstrap) Requests.pet_directory
  = main.handler "store-1" (fun _ => inr [("sub", "alice"); ("iss", "elsewhere")])
                 Requests.json_loads Requests.deny 3 (Up Samples.bootstrap)
                 Requests.pet_directory.
Proof.
  apply (handler_ignores_claims
           "store-1" Requests.jwt_decode
           (fun _ => inr [("sub", "alice"); ("iss", "elsewhere")])
           Requests.json_loads Requests.deny 3 (Up Samples.bootstrap)
           Requests.pet_directory "Bearer access" "access"
           [("iss", "https://cognito-idp.example/pool"); ("sub", "bob")]
           [("sub", "alice"); ("iss", "elsewhere")]);
    try reflexivity; discriminate.
Defined.

(** X6: without an identity token (no [id-token] header, or an empty one) a
    request that enters the check gets no decision.  The existence check
    comes first: a name that no vertex bears is answered with status 400 and
    "Invalid input -- ... doesn't exist", an existing resource with status
    401 and "Access denied -- no identity token provided" after the one
    existence query, and a request without a name with the same 401 and no
    call at all. *)
Theorem handler_no_identity_token (P : string)
        (jwt_decode json_loads : string -> exn + list (string * string))
        (avp : pyval -> exn + avp_response) (fuel : nat) (g : remote)
        (ev : main.event) (action : string) (dn vn : option string) :
  main.enters_check P jwt_decode json_loads ev action dn vn ->
  main.truthy_opt (get "id-token" (main.headers ev)) = false ->
  (forall name, dn = Some name -> main.truthy name = true ->
     main.handler P jwt_decode json_loads avp fuel g ev
     = ([QueryDirectoryInfo name],
        match database.query_directory_info fuel g name with
        | Ok (Some _) =>
            Ok (Some (message_response 401 "Access denied -- no identity token provided"))
        | Ok None =>
            Ok (Some (message_response 400 "Invalid input -- directory doesn't exist"))
        | Raise e => Raise e
        | OutOfFuel => OutOfFuel
        end))
  /\ (forall name, main.truthy_opt dn = false -> vn = Some name -> main.truthy name = true ->
        main.handler P jwt_decode json_loads avp fuel g ev
        = ([QueryVideoInfo name],
           match database.query_video_info fuel g name with
           | Ok (Some _) =>
               Ok (Some (message_response 401 "Access denied -- no identity token provided"))
           | Ok None =>
               Ok (Some (message_response 400 "Invalid input -- video doesn't exist"))
           | Raise e => Raise e
           | OutOfFuel => OutOfFuel
           end))
  /\ (main.truthy_opt dn = false -> main.truthy_opt vn = false ->
      main.handler P jwt_decode json_loads avp fuel g ev
      = ([], Ok (Some (message_response 401 "Access denied -- no identity token provided")))).
Proof.
  intros Henters Hid.
  rewrite (handler_enters _ _ _ _ _ _ _ _ _ _ Henters).
  split; [|split].
  - intros name -> Hname. rewrite authorize_directory by exact Hname.
    destruct (database.query_directory_info fuel g name) as [[d|]|e|]; try reflexivity.
    destruct (get "id-token" (main.headers ev)) as [token|]; [|reflexivity].
    cbn [main.truthy_opt] in Hid. now rewrite Hid.
  - intros name Hdn -> Hname. rewrite authorize_video by assumption.
    destruct (database.query_video_info fuel g name) as [[v|]|e|]; try reflexivity.
    destruct (get "id-token" (main.headers ev)) as [token|]; [|reflexivity].
    cbn [main.truthy_opt] in Hid. now rewrite Hid.
  - intros Hdn Hvn. rewrite authorize_no_name by assumption. now rewrite Hid.
Qed.

Lemma handler_no_identity_token_witness :
  main.handler "store-1" Requests.jwt_decode Requests.json_loads Requests.allow 3
               (Up Samples.bootstrap)
               (main.mkEvent "/video/get" "GET" [("Authorization", "Bearer access")] None
                             (Some [("videoName", "bobDogVideo.mp4")]))
  = ([QueryVideoInfo "bobDogVideo.mp4"],
     Ok (Some (main.mkResponse
                 401
                 [("Content-Type", "application/json"); ("Access-Control-Allow-Origin", "*")]
                 [("message", "Access denied -- no identity token provided")]))).
Proof.
  apply (handler_no_identity_token
           "store-1" Requests.jwt_decode Requests.json_loads Requests.allow 3
           (Up Samples.bootstrap)
           (main.mkEvent "/video/get" "GET" [("Authorization", "Bearer access")] None
                         (Some [("videoName", "bobDogVideo.mp4")]))
           "ViewVideo" None (Some "bobDogVideo.mp4"));
    repeat split.
Defined.



(** X8: the routes.  With POLICY_STORE_ID set to the empty string every
    event is answered with status 500; with it set to anything else, every
    event that is not a GET on /directory/get or /video/get is answered with
    status 404 and "Unknown API call".  Either answer comes before any header
    is read and any call is made.  (The variable is read when permissions.py
    is loaded: the handler runs only where it is set.) *)
Theorem handler_routes (P : string)
        (jwt_decode json_loads : string -> exn + list (string * string))
        (avp : pyval -> exn + avp_response) (fuel : nat) (g : remote) (ev : main.event) :
  (P = EmptyString ->
   main.handler P jwt_decode json_loads avp fuel g ev
   = ([], Ok (Some (message_response
                      500
                      "API Lambda environment variables not set. Please set POLICY_STORE_ID."))))
  /\ (P <> EmptyString ->
      ~ (main.httpMethod ev = "GET"
         /\ (main.resource ev = "/directory/get" \/ main.resource ev = "/video/get")) ->
      main.handler P jwt_decode json_loads avp fuel g ev
      = ([], Ok (Some (message_response 404 "Unknown API call"))))
  /\ (main.requested_action ev <> "Unknown" <->
      main.httpMethod ev = "GET"
      /\ (main.resource ev = "/directory/get" \/ main.resource ev = "/video/get")).
Proof.
  assert (main.requested_action ev <> "Unknown" <->
          main.httpMethod ev = "GET"
          /\ (main.resource ev = "/directory/get" \/ main.resource ev = "/video/get"))
    as Hroute.
  { split.
    - intros Hknown.
      destruct (requested_action_cases ev) as [(_ & Hr & Hm)|[(_ & Hr & Hm)|Ha]];
        [now split; [|left] | now split; [|right] | contradiction].
    - intros [Hm Hr]. unfold main.requested_action, main.ACTIONS_get, main.ACTIONS.
      rewrite Hm. destruct Hr as [-> | ->]; cbn; discriminate. }
  split; [|split; [|exact Hroute]].
  - intros ->. reflexivity.
  - intros HP Hnot. unfold main.handler.
    assert (main.truthy P = true) as ->
        by (destruct P; [contradiction|reflexivity]).
    cbn [negb].
    destruct (String.eqb (main.requested_action ev) "Unknown") eqn:Ha; [reflexivity|].
    exfalso. apply Hnot, Hroute. intros H. rewrite H in Ha. discriminate.
Qed.

(** ** More on the queries of database.py *)

Lemma propval_eqb_refl (x : propval) : propval_eqb x x = true.
Proof. destruct x; cbn; [apply String.eqb_refl|apply Bool.eqb_reflx]. Qed.

Lemma values1_has (key : string) (x : propval) (v : vertex) :
  In x (values1 key v) -> has key x v = true.
Proof.
  unfold values1, has. intros H. apply in_map_iff in H. destruct H as ([k y] & Hy & Hin).
  cbn [snd] in Hy. subst y. apply filter_In in Hin. destruct Hin as [Hin Hk]. cbn [fst] in Hk.
  apply existsb_exists. exists (k, x). split; [exact Hin|].
  cbn [fst snd]. now rewrite Hk, propval_eqb_refl.
Qed.

Lemma values_first (key : string) (ts : list vertex) (x : propval) (rest : list propval) :
  values key ts = x :: rest -> exists v, In v ts /\ has key x v = true.
Proof.
  intros H. assert (In x (values key ts)) as Hin by (rewrite H; now left).
  unfold values in Hin. apply in_flat_map in Hin. destruct Hin as (v & Hv & Hx).
  exists v. split; [exact Hv|]. now apply values1_has.
Qed.

(** X9: [query_user_info] has no not-found result.  When the store is up it
    raises StopIteration exactly when no user vertex of that name carries a
    userId (in particular when no user bears the name); otherwise it returns
    the first such userId with a vertex of the graph that is labelled user
    and carries that name and that userId. *)
Theorem query_user_info_outcome (g : graph) (name : string) :
  let named := filter (has "name" (PStr name)) (filter (hasLabel "user") (vertices g)) in
  (values "userId" named = [] ->
   database_users.query_user_info (Up g) name = Raise StopIteration)
  /\ (forall id rest,
         values "userId" named = id :: rest ->
         exists v,
           database_users.query_user_info (Up g) name = Ok (User.mk id name v)
           /\ In v (vertices g) /\ hasLabel "user" v = true
           /\ has "name" (PStr name) v = true /\ has "userId" id v = true)
  /\ (named = [] -> database_users.query_user_info (Up g) name = Raise StopIteration).
Proof.
  cbv zeta. unfold database_users.query_user_info. cbn [next res_bind].
  split; [|split].
  - intros H. now rewrite H.
  - intros id rest H. rewrite H. cbn [res_bind].
    destruct (values_first _ _ _ _ H) as (v & Hv & Hid).
    apply filter_In in Hv. destruct Hv as [Hv Hname].
    assert (In v (filter (has "name" (PStr name))
                         (filter (has "userId" id)
                                 (filter (hasLabel "user") (vertices g))))) as Hin.
    { apply filter_In. split; [|exact Hname]. apply filter_In. now split. }
    destruct (filter (has "name" (PStr name))
                     (filter (has "userId" id) (filter (hasLabel "user") (vertices g))))
      as [|w ws] eqn:E; [contradiction|].
    exists w. split; [reflexivity|].
    assert (In w (filter (has "name" (PStr name))
                         (filter (has "userId" id)
                                 (filter (hasLabel "user") (vertices g))))) as Hw
        by (rewrite E; now left).
    apply filter_In in Hw. destruct Hw as [Hw Hwname].
    apply filter_In in Hw. destruct Hw as [Hw Hwid].
    apply filter_In in Hw. destruct Hw as [Hw Hwlabel].
    now repeat split.
  - intros H. now rewrite H.
Qed.

Section Outcomes.
Variables (fuel : nat) (g : graph) (name : string).

Lemma query_directory_info_present (v : vertex) (vs : list vertex) :
  filter (has "name" (PStr name)) (filter (hasLabel "directory") (vertices g)) = v :: vs ->
  database.query_directory_info fuel (Up g) name <> Ok None
  /\ (forall e, database.query_directory_info fuel (Up g) name = Raise e -> e = StopIteration)
  /\ (values "directoryId" (v :: vs) = [] ->
      database.query_directory_info fuel (Up g) name = Raise StopIteration).
Proof.
  intros H. unfold database.query_directory_info. cbn [toList next res_bind].
  rewrite H.
  destruct (values "directoryId" (v :: vs)) as [|id ids]; cbn [res_bind].
  { repeat split; try discriminate; try (now intros e He; inversion He). }
  destruct (filter _ (database.resource "directory" "directoryId" id g)) as [|w ws];
    cbn [res_bind].
  { repeat split; try discriminate; try (now intros e He; inversion He). }
  destruct (database.owners "directory" "directoryId" id fuel g); cbn [option_map res_bind].
  2:{ repeat split; try discriminate; try (now intros e He; inversion He). }
  destruct (database.parents "directory" "directoryId" id fuel g); cbn [option_map res_bind].
  2:{ repeat split; try discriminate; try (now intros e He; inversion He). }
  destruct (values "isPublic" (w :: ws)); cbn [res_bind].
  - repeat split; try discriminate; try (now intros e He; inversion He).
  - repeat split; try discriminate; try (now intros e He; inversion He).
Qed.

Lemma query_video_info_present (v : vertex) (vs : list vertex) :
  filter (has "name" (PStr name)) (filter (hasLabel "video") (vertices g)) = v :: vs ->
  database.query_video_info fuel (Up g) name <> Ok None
  /\ (forall e, database.query_video_info fuel (Up g) name = Raise e -> e = StopIteration)
  /\ (values "videoId" (v :: vs) = [] ->
      database.query_video_info fuel (Up g) name = Raise StopIteration).
Proof.
  intros H. unfold database.query_video_info. cbn [toList next res_bind].
  rewrite H.
  destruct (values "videoId" (v :: vs)) as [|id ids]; cbn [res_bind].
  { repeat split; try discriminate; try (now intros e He; inversion He). }
  destruct (filter _ (database.resource "video" "videoId" id g)) as [|w ws];
    cbn [res_bind].
  { repeat split; try discriminate; try (now intros e He; inversion He). }
  destruct (database.owners "video" "videoId" id fuel g); cbn [option_map res_bind].
  2:{ repeat split; try discriminate; try (now intros e He; inversion He). }
  destruct (database.parents "video" "videoId" id fuel g); cbn [option_map res_bind].
  2:{ repeat split; try discriminate; try (now intros e He; inversion He). }
  destruct (values "isPublic" (w :: ws)); cbn [res_bind].
  - repeat split; try discriminate; try (now intros e He; inversion He).
  - repeat split; try discriminate; try (now intros e He; inversion He).
Qed.

End Outcomes.

(** X10: the not-found result of the two queries.  With the store up,
    [query_directory_info] returns None exactly when no vertex labelled
    directory bears the name, and [query_video_info] exactly when no vertex
    labelled video does: a name of the other kind is not found.  On a
    resource that exists the only exception they raise is StopIteration, and
    they raise it when no vertex of that name carries the identifier. *)
Theorem query_not_found (fuel : nat) (g : graph) (name : string) :
  let directories :=
    filter (has "name" (PStr name)) (filter (hasLabel "directory") (vertices g)) in
  let videos := filter (has "name" (PStr name)) (filter (hasLabel "video") (vertices g)) in
  (database.query_directory_info fuel (Up g) name = Ok None <-> directories = [])
  /\ (database.query_video_info fuel (Up g) name = Ok None <-> videos = [])
  /\ (forall e, database.query_directory_info fuel (Up g) name = Raise e ->
                e = StopIteration /\ directories <> [])
  /\ (forall e, database.query_video_info fuel (Up g) name = Raise e ->
                e = StopIteration /\ videos <> [])
  /\ (directories <> [] -> values "directoryId" directories = [] ->
      database.query_directory_info fuel (Up g) name = Raise StopIteration)
  /\ (videos <> [] -> values "videoId" videos = [] ->
      database.query_video_info fuel (Up g) name = Raise StopIteration).
Proof.
  cbv zeta.
  destruct (filter (has "name" (PStr name)) (filter (hasLabel "directory") (vertices g)))
    as [|d ds] eqn:Hd;
    destruct (filter (has "name" (PStr name)) (filter (hasLabel "video") (vertices g)))
    as [|v vs] eqn:Hv.
  all: try (pose proof (query_directory_info_absent fuel g name Hd) as Hda).
  all: try (pose proof (query_video_info_absent fuel g name Hv) as Hva).
  all: try (destruct (query_directory_info_present fuel g name d ds Hd) as (Hd1 & Hd2 & Hd3)).
  all: try (destruct (query_video_info_present fuel g name v vs Hv) as (Hv1 & Hv2 & Hv3)).
  all: repeat split; try congruence; try discriminate; try tauto;
    try (intros; exfalso; congruence); try (now intros e He; apply Hd2 in He);
    try (now intros e He; apply Hv2 in He); auto.
Qed.

(** ** What the resolved record holds *)

(** Filtering traversers keeps their identities distinct. *)
Lemma filter_distinct (keep : vertex -> bool) (ts : list vertex) :
  NoDup (map vid ts) -> NoDup (map vid (filter keep ts)).
Proof.
  intros Hts. induction ts as [|t ts IH]; cbn [map filter] in *; [exact Hts|].
  inversion Hts as [|? ? Ht Hrest]; subst.
  destruct (keep t); cbn [map]; [|auto].
  constructor; [|auto]. intros Hin. apply Ht.
  apply in_map_iff in Hin. destruct Hin as (w & Hw & Hin).
  apply filter_In in Hin. apply in_map_iff. exists w. tauto.
Qed.

Lemma dedup_NoDup (ts : list vertex) : NoDup (map vid (dedup ts)).
Proof.
  induction ts as [|t ts IH]; cbn [dedup map]; constructor.
  - intros Hin. apply in_map_iff in Hin. destruct Hin as (w & Hw & Hin).
    apply filter_In in Hin. destruct Hin as [_ Hneq].
    unfold same_vertex in Hneq. rewrite Hw, Nat.eqb_refl in Hneq. discriminate.
  - now apply filter_distinct.
Qed.

Lemma dedup_subset (ts : list vertex) (x : vertex) : In x (dedup ts) -> In x ts.
Proof.
  induction ts as [|t ts IH]; cbn [dedup]; [auto|].
  intros [->|Hin]; [now left|]. right. apply IH. now apply filter_In in Hin.
Qed.

Lemma in_owner (g : graph) (v o : vertex) : In o (in_ "OWNER" g v) -> owner_in g o.
Proof.
  unfold in_. intros H. apply in_flat_map in H. destruct H as (e & He & Ho).
  destruct (String.eqb (elabel e) "OWNER") eqn:Hl; [|contradiction].
  destruct (Nat.eqb (edst e) (vid v)); [|contradiction]. cbn [andb] in Ho.
  unfold lookup in Ho. apply filter_In in Ho. destruct Ho as [Ho Hid].
  apply Nat.eqb_eq in Hid. apply String.eqb_eq in Hl.
  split; [exact Ho|]. exists e. now repeat split.
Qed.

Lemma out_parent (g : graph) (v p : vertex) : In p (out "MEMBEROF" g v) -> parent_in g p.
Proof.
  unfold out. intros H. apply in_flat_map in H. destruct H as (e & He & Hp).
  destruct (String.eqb (elabel e) "MEMBEROF") eqn:Hl; [|contradiction].
  destruct (Nat.eqb (esrc e) (vid v)); [|contradiction]. cbn [andb] in Hp.
  unfold lookup in Hp. apply filter_In in Hp. destruct Hp as [Hp Hid].
  apply Nat.eqb_eq in Hid. apply String.eqb_eq in Hl.
  split; [exact Hp|]. exists e. now repeat split.
Qed.

Lemma repeat_until_parents (g : graph) (stop : vertex -> bool) :
  forall (fuel : nat) (ts R : list vertex),
    repeat_until fuel (out "MEMBEROF" g) stop ts = Some R -> Forall (parent_in g) R.
Proof.
  induction fuel as [|fuel IH]; intros ts R H.
  - destruct ts; [|discriminate]. inversion H. constructor.
  - destruct ts as [|t ts]; [inversion H; constructor|].
    cbn [repeat_until] in H.
    destruct (repeat_until fuel (out "MEMBEROF" g) stop
                (filter (fun v => negb (stop v)) (flat_map (out "MEMBEROF" g) (t :: ts))))
      as [R'|] eqn:E; [|discriminate].
    inversion H; subst R. apply Forall_app. split.
    + apply Forall_forall. intros x Hx. apply filter_In in Hx. destruct Hx as [Hx _].
      change (In x (flat_map (out "MEMBEROF" g) (t :: ts))) in Hx.
      apply in_flat_map in Hx. destruct Hx as (v & _ & Hx). now apply out_parent with v.
    + now apply IH with (filter (fun v => negb (stop v))
                                (flat_map (out "MEMBEROF" g) (t :: ts))).
Qed.

Section Collected.
Variables (label idkey : string) (id : propval) (fuel : nat) (g : graph).

Lemma owners_collected (O : list vertex) :
  database.owners label idkey id fuel g = Some O ->
  NoDup (map vid O) /\ Forall (owner_in g) O.
Proof.
  unfold database.owners.
  generalize (database.resource label idkey id g). intros ts.
  destruct (union _ _ fuel g ts) as [U|] eqn:E; [|discriminate].
  cbn [option_map]. intros H. inversion H; subst O. clear H. split; [apply dedup_NoDup|].
  apply Forall_forall. intros o Ho. apply dedup_subset in Ho.
  revert U E Ho. induction ts as [|t ts IH]; cbn [union]; intros U E Ho.
  - inversion E; subst U. contradiction.
  - unfold hop at 1 in E. unfold then_ at 1 in E.
    destruct (repeat_ (out "MEMBEROF") (has "name" database.ROOT) fuel g t) as [R|];
      [|discriminate].
    destruct (union _ _ fuel g ts) as [U'|]; [|discriminate].
    inversion E; subst U. apply in_app_or in Ho. destruct Ho as [Ho|Ho].
    + now apply in_owner with t.
    + apply in_app_or in Ho. destruct Ho as [Ho|Ho]; [|now apply IH with U'].
      apply in_flat_map in Ho. destruct Ho as (r & _ & Ho). now apply in_owner with r.
Qed.

Lemma parents_collected (Pp : list vertex) :
  database.parents label idkey id fuel g = Some Pp ->
  NoDup (map vid Pp) /\ Forall (parent_in g) Pp.
Proof.
  unfold database.parents.
  generalize (database.resource label idkey id g). intros ts.
  destruct (union _ _ fuel g ts) as [U|] eqn:E; [|discriminate].
  cbn [option_map]. intros H. inversion H; subst Pp. clear H. split; [apply dedup_NoDup|].
  apply Forall_forall. intros o Ho. apply dedup_subset in Ho.
  revert U E Ho. induction ts as [|t ts IH]; cbn [union]; intros U E Ho.
  - inversion E; subst U. contradiction.
  - unfold hop at 1 in E. unfold repeat_ at 1 in E.
    destruct (repeat_until fuel (out "MEMBEROF" g) (has "name" database.ROOT) [t])
      as [R|] eqn:ER; [|discriminate].
    destruct (union _ _ fuel g ts) as [U'|]; [|discriminate].
    inversion E; subst U. apply in_app_or in Ho. destruct Ho as [Ho|Ho].
    + now apply out_parent with t.
    + apply in_app_or in Ho. destruct Ho as [Ho|Ho]; [|now apply IH with U'].
      apply repeat_until_parents in ER. rewrite Forall_forall in ER. now apply ER.
Qed.

End Collected.

Lemma values_length (key : string) (ts : list vertex) :
  Forall (fun t => List.length (values1 key t) = 1) ts ->
  List.length (values key ts) = List.length ts.
Proof.
  induction 1 as [|t ts Ht _ IH]; cbn [values flat_map List.length]; [reflexivity|].
  rewrite length_app. unfold values in IH. rewrite Ht, IH. reflexivity.
Qed.

(** The fields of the record [query_directory_info] returns. *)
Lemma query_directory_info_fields (fuel : nat) (g : graph) (name : string) (d : Directory.t) :
  database.query_directory_info fuel (Up g) name = Ok (Some d) ->
  exists O Pp rest,
    database.owners "directory" "directoryId" (Directory.directory_id d) fuel g = Some O
    /\ database.parents "directory" "directoryId" (Directory.directory_id d) fuel g = Some Pp
    /\ Directory.owner_id d = values "userId" O
    /\ Directory.owner_name d = values "name" O
    /\ Directory.parents_id d = values "directoryId" Pp
    /\ Directory.directory_name d = name
    /\ filter (has "name" (PStr name))
              (database.resource "directory" "directoryId" (Directory.directory_id d) g)
       = Directory.directory_vertex d :: rest
    /\ hd_error (values "isPublic" (Directory.directory_vertex d :: rest))
       = Some (Directory.isPublic d).
Proof.
  unfold database.query_directory_info. cbn [toList next res_bind].
  destruct (filter _ (filter _ (vertices g))) as [|v vs]; [discriminate|].
  destruct (values "directoryId" (v :: vs)) as [|id ids]; [discriminate|]. cbn [res_bind].
  destruct (filter _ (database.resource "directory" "directoryId" id g)) as [|w ws] eqn:Hw;
    [discriminate|]. cbn [res_bind].
  destruct (database.owners "directory" "directoryId" id fuel g) as [O|] eqn:HO;
    [|discriminate]. cbn [option_map res_bind].
  destruct (database.parents "directory" "directoryId" id fuel g) as [Pp|] eqn:HP;
    [|discriminate]. cbn [option_map res_bind].
  destruct (values "isPublic" (w :: ws)) as [|p ps] eqn:Hp; [discriminate|]. cbn [res_bind].
  intros H. inversion H; subst d.
  cbn [Directory.directory_id Directory.directory_name Directory.directory_vertex
         Directory.owner_id Directory.owner_name Directory.parents_id Directory.isPublic].
  exists O, Pp, ws. rewrite Hp. now repeat split.
Qed.

Lemma query_video_info_fields (fuel : nat) (g : graph) (name : string) (v : Video.t) :
  database.query_video_info fuel (Up g) name = Ok (Some v) ->
  exists O Pp rest,
    database.owners "video" "videoId" (Video.video_id v) fuel g = Some O
    /\ database.parents "video" "videoId" (Video.video_id v) fuel g = Some Pp
    /\ Video.owner_id v = values "userId" O
    /\ Video.owner_name v = values "name" O
    /\ Video.parents_id v = values "directoryId" Pp
    /\ Video.video_name v = name
    /\ filter (has "name" (PStr name))
              (database.resource "video" "videoId" (Video.video_id v) g)
       = Video.video_vertex v :: rest
    /\ hd_error (values "isPublic" (Video.video_vertex v :: rest))
       = Some (Video.isPublic v).
Proof.
  unfold database.query_video_info. cbn [toList next res_bind].
  destruct (filter _ (filter _ (vertices g))) as [|x xs]; [discriminate|].
  destruct (values "videoId" (x :: xs)) as [|id ids]; [discriminate|]. cbn [res_bind].
  destruct (filter _ (database.resource "video" "videoId" id g)) as [|w ws] eqn:Hw;
    [discriminate|]. cbn [res_bind].
  destruct (database.owners "video" "videoId" id fuel g) as [O|] eqn:HO;
    [|discriminate]. cbn [option_map res_bind].
  destruct (database.parents "video" "videoId" id fuel g) as [Pp|] eqn:HP;
    [|discriminate]. cbn [option_map res_bind].
  destruct (values "isPublic" (w :: ws)) as [|p ps] eqn:Hp; [discriminate|]. cbn [res_bind].
  intros H. inversion H; subst v.
  cbn [Video.video_id Video.video_name Video.video_vertex
         Video.owner_id Video.owner_name Video.parents_id Video.isPublic].
  exists O, Pp, ws. rewrite Hp. now repeat split.
Qed.

(** X11: the owner lists of a resolved resource.  [owner_id] and
    [owner_name] are read off one and the same list of vertices, which holds
    no vertex twice and only vertices of the graph from which an OWNER edge
    starts; so when each of these carries one userId and one name, the two
    lists have as many entries as there are owners and match entry by
    entry. *)
Theorem query_owner_lists (fuel : nat) (g : graph) (name : string) :
  (forall d, database.query_directory_info fuel (Up g) name = Ok (Some d) ->
     exists O,
       NoDup (map vid O) /\ Forall (owner_in g) O
       /\ Directory.owner_id d = values "userId" O
       /\ Directory.owner_name d = values "name" O
       /\ (Forall (fun o => List.length (values1 "userId" o) = 1) O ->
           Forall (fun o => List.length (values1 "name" o) = 1) O ->
           List.length (Directory.owner_id d) = List.length O
           /\ List.length (Directory.owner_name d) = List.length O))
  /\ (forall v, database.query_video_info fuel (Up g) name = Ok (Some v) ->
        exists O,
          NoDup (map vid O) /\ Forall (owner_in g) O
          /\ Video.owner_id v = values "userId" O
          /\ Video.owner_name v = values "name" O
          /\ (Forall (fun o => List.length (values1 "userId" o) = 1) O ->
              Forall (fun o => List.length (values1 "name" o) = 1) O ->
              List.length (Video.owner_id v) = List.length O
              /\ List.length (Video.owner_name v) = List.length O)).
Proof.
  split.
  - intros d H. apply query_directory_info_fields in H.
    destruct H as (O & Pp & rest & HO & _ & Hid & Hname & _).
    destruct (owners_collected _ _ _ _ _ _ HO) as [Hnodup Hown].
    exists O. repeat split; try assumption.
    + rewrite Hid. now apply values_length.
    + rewrite Hname. now apply values_length.
  - intros v H. apply query_video_info_fields in H.
    destruct H as (O & Pp & rest & HO & _ & Hid & Hname & _).
    destruct (owners_collected _ _ _ _ _ _ HO) as [Hnodup Hown].
    exists O. repeat split; try assumption.
    + rewrite Hid. now apply values_length.
    + rewrite Hname. now apply values_length.
Qed.

(** X12: the parent list of a resolved resource.  [parents_id] lists the
    directoryId values of a list of vertices that holds no vertex twice and
    only vertices of the graph at which a MEMBEROF edge ends; a parent that
    carries no directoryId adds nothing to it. *)
Theorem query_parent_list (fuel : nat) (g : graph) (name : string) :
  (forall d, database.query_directory_info fuel (Up g) name = Ok (Some d) ->
     exists Pp,
       NoDup (map vid Pp) /\ Forall (parent_in g) Pp
       /\ Directory.parents_id d = values "directoryId" Pp
       /\ (forall x, In x (Directory.parents_id d) ->
                     exists p, In p Pp /\ has "directoryId" x p = true))
  /\ (forall v, database.query_video_info fuel (Up g) name = Ok (Some v) ->
        exists Pp,
          NoDup (map vid Pp) /\ Forall (parent_in g) Pp
          /\ Video.parents_id v = values "directoryId" Pp
          /\ (forall x, In x (Video.parents_id v) ->
                        exists p, In p Pp /\ has "directoryId" x p = true)).
Proof.
  split.
  - intros d H. apply query_directory_info_fields in H.
    destruct H as (O & Pp & rest & _ & HP & _ & _ & Hpar & _).
    destruct (parents_collected _ _ _ _ _ _ HP) as [Hnodup Hin].
    exists Pp. repeat split; try assumption.
    intros x Hx. rewrite Hpar in Hx. unfold values in Hx. apply in_flat_map in Hx.
    destruct Hx as (p & Hp & Hx). exists p. split; [exact Hp|now apply values1_has].
  - intros v H. apply query_video_info_fields in H.
    destruct H as (O & Pp & rest & _ & HP & _ & _ & Hpar & _).
    destruct (parents_collected _ _ _ _ _ _ HP) as [Hnodup Hin].
    exists Pp. repeat split; try assumption.
    intros x Hx. rewrite Hpar in Hx. unfold values in Hx. apply in_flat_map in Hx.
    destruct Hx as (p & Hp & Hx). exists p. split; [exact Hp|now apply values1_has].
Qed.

Lemma resolved_vertex (g : graph) (label idkey name : string) (id p : propval)
      (r : vertex) (rest : list vertex) :
  filter (has "name" (PStr name)) (database.resource label idkey id g) = r :: rest ->
  hd_error (values "isPublic" (r :: rest)) = Some p ->
  (In r (vertices g) /\ hasLabel label r = true
   /\ has "name" (PStr name) r = true /\ has idkey id r = true)
  /\ (exists w, In w (vertices g) /\ hasLabel label w = true
                /\ has "name" (PStr name) w = true /\ has idkey id w = true
                /\ has "isPublic" p w = true)
  /\ (database.resource label idkey id g = [r] -> has "isPublic" p r = true).
Proof.
  intros Hr Hp.
  assert (forall w, In w (r :: rest) ->
                    In w (vertices g) /\ hasLabel label w = true
                    /\ has "name" (PStr name) w = true /\ has idkey id w = true) as Hall.
  { intros w Hw. rewrite <- Hr in Hw. apply filter_In in Hw. destruct Hw as [Hw Hname].
    unfold database.resource in Hw. apply filter_In in Hw. destruct Hw as [Hw Hid].
    apply filter_In in Hw. tauto. }
  destruct (hd_error_cons _ _ Hp) as (ps & Hps).
  destruct (values_first _ _ _ _ Hps) as (w & Hw & Hwp).
  split; [apply Hall; now left|]. split.
  - exists w. destruct (Hall w Hw) as (? & ? & ? & ?). now repeat split.
  - intros Hone. rewrite Hone in Hr. cbn [filter] in Hr.
    destruct (has "name" (PStr name) r); [|discriminate].
    inversion Hr; subst rest. destruct Hw as [<-|[]]. exact Hwp.
Qed.

(** X13: what a resolved record stands for.  The record bears the name
    asked for; its vertex is a vertex of the graph with the label of the
    kind, that name and the record's identifier; and [isPublic] is a flag
    carried by such a vertex (by the record's own vertex when the identifier
    is unique): the resource's own flag, never that of an ancestor. *)
Theorem query_resolved_record (fuel : nat) (g : graph) (name : string) :
  (forall d, database.query_directory_info fuel (Up g) name = Ok (Some d) ->
     Directory.directory_name d = name
     /\ (In (Directory.directory_vertex d) (vertices g)
         /\ hasLabel "directory" (Directory.directory_vertex d) = true
         /\ has "name" (PStr name) (Directory.directory_vertex d) = true
         /\ has "directoryId" (Directory.directory_id d) (Directory.directory_vertex d) = true)
     /\ (exists w, In w (vertices g) /\ hasLabel "directory" w = true
                   /\ has "name" (PStr name) w = true
                   /\ has "directoryId" (Directory.directory_id d) w = true
                   /\ has "isPublic" (Directory.isPublic d) w = true)
     /\ (database.resource "directory" "directoryId" (Directory.directory_id d) g
         = [Directory.directory_vertex d] ->
         has "isPublic" (Directory.isPublic d) (Directory.directory_vertex d) = true))
  /\ (forall v, database.query_video_info fuel (Up g) name = Ok (Some v) ->
        Video.video_name v = name
        /\ (In (Video.video_vertex v) (vertices g)
            /\ hasLabel "video" (Video.video_vertex v) = true
            /\ has "name" (PStr name) (Video.video_vertex v) = true
            /\ has "videoId" (Video.video_id v) (Video.video_vertex v) = true)
        /\ (exists w, In w (vertices g) /\ hasLabel "video" w = true
                      /\ has "name" (PStr name) w = true
                      /\ has "videoId" (Video.video_id v) w = true
                      /\ has "isPublic" (Video.isPublic v) w = true)
        /\ (database.resource "video" "videoId" (Video.video_id v) g = [Video.video_vertex v] ->
            has "isPublic" (Video.isPublic v) (Video.video_vertex v) = true)).
Proof.
  split.
  - intros d H. apply query_directory_info_fields in H.
    destruct H as (O & Pp & rest & _ & _ & _ & _ & _ & Hname & Hr & Hp).
    split; [exact Hname|]. now apply resolved_vertex with rest.
  - intros v H. apply query_video_info_fields in H.
    destruct H as (O & Pp & rest & _ & _ & _ & _ & _ & Hname & Hr & Hp).
    split; [exact Hname|]. now apply resolved_vertex with rest.
Qed.

(** ** The bootstrap Lambda *)

Section BootstrapFacts.
Variables (user_pool_id policy_store_id : string)
          (petVideosDir_id aliceVideosDir_id bobVideosDir_id : string)
          (aliceCatVideo_id bobDogVideo_id : string)
          (admin_create_user : string -> string -> exn + list (string * string))
          (create_policy : string -> string -> string -> exn + unit).

Lemma create_cognito_user_created (username pool : string) (store : remote) :
  bootstrap.create_cognito_user admin_create_user username pool store
  = ([bootstrap.AdminCreateUser pool username "TempPassword123!" "SUPPRESS";
      bootstrap.AdminSetUserPassword pool username "Password123!" true],
     (store,
      match created admin_create_user pool username with
      | Some id => Ok id
      | None => Raise (UnboundLocalError "avp_username_id")
      end)).
Proof.
  unfold bootstrap.create_cognito_user, created.
  destruct (admin_create_user pool username) as [e|attributes]; [reflexivity|].
  destruct (get "sub" attributes); reflexivity.
Qed.

Lemma bindB_run {A C} (m : bootstrap.B A) (f : A -> bootstrap.B C) (store : remote) :
  bootstrap.bindB m f store
  = match m store with
    | (t, (store', Ok a)) => let '(t', r) := f a store' in (t ++ t', r)
    | (t, (store', Raise e)) => (t, (store', Raise e))
    | (t, (store', OutOfFuel)) => (t, (store', OutOfFuel))
    end.
Proof. reflexivity. Qed.

End BootstrapFacts.

Ltac create_user H := rewrite bindB_run, create_cognito_user_created, H.

(** X14: the bootstrap Lambda seeds the sample.  When Cognito creates the
    three users, the store is up and both policies are created, the handler
    succeeds and leaves in the store exactly the sample graph (eight
    vertices, nine edges) for the identifiers drawn, whatever the store held
    before; the six Cognito calls come first and the two policies last. *)
Theorem bootstrap_seeds (user_pool_id policy_store_id : string)
        (petVideosDir_id aliceVideosDir_id bobVideosDir_id : string)
        (aliceCatVideo_id bobDogVideo_id : string)
        (admin_create_user : string -> string -> exn + list (string * string))
        (create_policy : string -> string -> string -> exn + unit)
        (g0 : graph) (alice_id bob_id charlie_id : string) :
  created admin_create_user user_pool_id "alice" = Some alice_id ->
  created admin_create_user user_pool_id "bob" = Some bob_id ->
  created admin_create_user user_pool_id "charlie" = Some charlie_id ->
  (forall description statement,
      create_policy policy_store_id description statement = inr tt) ->
  snd (bootstrap.handler user_pool_id policy_store_id petVideosDir_id aliceVideosDir_id
                         bobVideosDir_id aliceCatVideo_id bobDogVideo_id
                         admin_create_user create_policy (Up g0))
  = (Up (bootstrap.seeded petVideosDir_id aliceVideosDir_id bobVideosDir_id
                          aliceCatVideo_id bobDogVideo_id alice_id bob_id charlie_id),
     Ok tt)
  /\ map is_policy
         (fst (bootstrap.handler user_pool_id policy_store_id petVideosDir_id
                                 aliceVideosDir_id bobVideosDir_id aliceCatVideo_id
                                 bobDogVideo_id admin_create_user create_policy (Up g0)))
     = [false; false; false; false; false; false; true; true].
Proof.
  intros Ha Hb Hc Hp. unfold bootstrap.handler.
  create_user Ha. create_user Hb. create_user Hc.
  unfold bootstrap.policy.
  cbv -[String.append bootstrap.quoted]. rewrite !Hp. split; reflexivity.
Qed.

Lemma bootstrap_seeds_witness :
  snd (bootstrap.handler "pool" "store-1" "dir-pet" "dir-alice" "dir-bob" "vid-cat" "vid-dog"
                         (fun _ username => inr [("sub", username)])
                         (fun _ _ _ => inr tt) (Up Samples.cyclic))
  = (Up Samples.bootstrap, Ok tt).
Proof.
  exact (proj1 (bootstrap_seeds
                  "pool" "store-1" "dir-pet" "dir-alice" "dir-bob" "vid-cat" "vid-dog"
                  (fun _ username => inr [("sub", username)]) (fun _ _ _ => inr tt)
                  Samples.cyclic "pool|alice" "pool|bob" "pool|charlie"
                  eq_refl eq_refl eq_refl (fun _ _ => eq_refl))).
Defined.

(** X15: how the bootstrap Lambda fails.  If Cognito fails to create one of
    the three users (or answers no [sub]), the handler raises
    UnboundLocalError for [avp_username_id], the store is left as it was and
    no policy is created.  If the store cannot be reached, the handler raises
    after the six Cognito calls, with no policy created.  If a policy cannot
    be created, the handler raises, with the store already holding the new
    graph. *)
Theorem bootstrap_failures (user_pool_id policy_store_id : string)
        (petVideosDir_id aliceVideosDir_id bobVideosDir_id : string)
        (aliceCatVideo_id bobDogVideo_id : string)
        (admin_create_user : string -> string -> exn + list (string * string))
        (create_policy : string -> string -> string -> exn + unit) :
  (forall store,
      created admin_create_user user_pool_id "alice" = None
      \/ created admin_create_user user_pool_id "bob" = None
      \/ created admin_create_user user_pool_id "charlie" = None ->
      snd (bootstrap.handler user_pool_id policy_store_id petVideosDir_id aliceVideosDir_id
                             bobVideosDir_id aliceCatVideo_id bobDogVideo_id
                             admin_create_user create_policy store)
      = (store, Raise (UnboundLocalError "avp_username_id"))
      /\ existsb is_policy
                 (fst (bootstrap.handler user_pool_id policy_store_id petVideosDir_id
                                         aliceVideosDir_id bobVideosDir_id aliceCatVideo_id
                                         bobDogVideo_id admin_create_user create_policy
                                         store)) = false)
  /\ (forall msg alice_id bob_id charlie_id,
         created admin_create_user user_pool_id "alice" = Some alice_id ->
         created admin_create_user user_pool_id "bob" = Some bob_id ->
         created admin_create_user user_pool_id "charlie" = Some charlie_id ->
         snd (bootstrap.handler user_pool_id policy_store_id petVideosDir_id
                                aliceVideosDir_id bobVideosDir_id aliceCatVideo_id
                                bobDogVideo_id admin_create_user create_policy (Down msg))
         = (Down msg, Raise (GremlinServerError msg))
         /\ map is_policy
                (fst (bootstrap.handler user_pool_id policy_store_id petVideosDir_id
                                        aliceVideosDir_id bobVideosDir_id aliceCatVideo_id
                                        bobDogVideo_id admin_create_user create_policy
                                        (Down msg)))
            = [false; false; false; false; false; false])
  /\ (forall g0 e alice_id bob_id charlie_id,
         created admin_create_user user_pool_id "alice" = Some alice_id ->
         created admin_create_user user_pool_id "bob" = Some bob_id ->
         created admin_create_user user_pool_id "charlie" = Some charlie_id ->
         (forall description statement,
             create_policy policy_store_id description statement = inl e) ->
         snd (bootstrap.handler user_pool_id policy_store_id petVideosDir_id
                                aliceVideosDir_id bobVideosDir_id aliceCatVideo_id
                                bobDogVideo_id admin_create_user create_policy (Up g0))
         = (Up (bootstrap.seeded petVideosDir_id aliceVideosDir_id bobVideosDir_id
                                 aliceCatVideo_id bobDogVideo_id alice_id bob_id charlie_id),
            Raise e)).
Proof.
  split; [|split].
  - intros store H. unfold bootstrap.handler.
    destruct (created admin_create_user user_pool_id "alice") as [a|] eqn:Ha.
    2:{ create_user Ha. split; reflexivity. }
    create_user Ha.
    destruct (created admin_create_user user_pool_id "bob") as [b|] eqn:Hb.
    2:{ create_user Hb. split; reflexivity. }
    create_user Hb.
    destruct (created admin_create_user user_pool_id "charlie") as [c|] eqn:Hc.
    2:{ create_user Hc. split; reflexivity. }
    destruct H as [H|[H|H]]; discriminate H.
  - intros msg alice_id bob_id charlie_id Ha Hb Hc. unfold bootstrap.handler.
    create_user Ha. create_user Hb. create_user Hc. split; reflexivity.
  - intros g0 e alice_id bob_id charlie_id Ha Hb Hc Hp. unfold bootstrap.handler.
    create_user Ha. create_user Hb. create_user Hc.
    unfold bootstrap.policy.
    cbv -[String.append bootstrap.quoted]. rewrite !Hp. reflexivity.
Qed.

(** X16: on the graph the bootstrap Lambda seeds, the queries compute the
    closure of the specification.  For identifiers that differ from one
    another, each of the three directories and of the two videos is resolved
    with the owners of the resource and of every ancestor, deduplicated, and
    with its whole chain of parents up to petVideosDirectory: the sample is
    two levels deep, and there the ancestor in the middle has the owner of
    the resource. *)
Theorem seeded_closure (petVideosDir_id aliceVideosDir_id bobVideosDir_id : string)
        (aliceCatVideo_id bobDogVideo_id alice_id bob_id charlie_id : string) :
  aliceVideosDir_id <> bobVideosDir_id ->
  aliceVideosDir_id <> petVideosDir_id ->
  bobVideosDir_id <> petVideosDir_id ->
  aliceCatVideo_id <> bobDogVideo_id ->
  Forall (directory_closure
            3 (bootstrap.seeded petVideosDir_id aliceVideosDir_id bobVideosDir_id
                                aliceCatVideo_id bobDogVideo_id alice_id bob_id charlie_id))
         ["petVideosDirectory"; "aliceVideosDirectory"; "bobVideosDirectory"]
  /\ Forall (video_closure
               3 (bootstrap.seeded petVideosDir_id aliceVideosDir_id bobVideosDir_id
                                   aliceCatVideo_id bobDogVideo_id alice_id bob_id charlie_id))
            ["aliceCatVideo.mp4"; "bobDogVideo.mp4"].
Proof.
  intros Hab Hap Hbp Hcd.
  assert (String.eqb aliceVideosDir_id bobVideosDir_id = false) as Eab
      by now apply String.eqb_neq.
  assert (String.eqb bobVideosDir_id aliceVideosDir_id = false) as Eba
      by (apply String.eqb_neq; congruence).
  assert (String.eqb aliceVideosDir_id petVideosDir_id = false) as Eap
      by now apply String.eqb_neq.
  assert (String.eqb petVideosDir_id aliceVideosDir_id = false) as Epa
      by (apply String.eqb_neq; congruence).
  assert (String.eqb bobVideosDir_id petVideosDir_id = false) as Ebp
      by now apply String.eqb_neq.
  assert (String.eqb petVideosDir_id bobVideosDir_id = false) as Epb
      by (apply String.eqb_neq; congruence).
  assert (String.eqb aliceCatVideo_id bobDogVideo_id = false) as Ecd
      by now apply String.eqb_neq.
  assert (String.eqb bobDogVideo_id aliceCatVideo_id = false) as Edc
      by (apply String.eqb_neq; congruence).
  set (G := bootstrap.seeded petVideosDir_id aliceVideosDir_id bobVideosDir_id
                             aliceCatVideo_id bobDogVideo_id alice_id bob_id charlie_id).
  split.
  - apply Forall_cons; [|apply Forall_cons; [|apply Forall_cons; [|apply Forall_nil]]].
    + exists (nth 5 (vertices G) Samples.alice), [], (PStr petVideosDir_id), (PBool false).
      split; [reflexivity|].
      rewrite (query_directory_info_walk 3 G "petVideosDirectory"
                 (nth 5 (vertices G) Samples.alice) (PStr petVideosDir_id) (PBool false) []);
        [reflexivity| |reflexivity].
      repeat split. unfold database.resource. cbn.
      rewrite Eap, Ebp, String.eqb_refl. reflexivity.
    + exists (nth 3 (vertices G) Samples.alice), [nth 5 (vertices G) Samples.alice],
        (PStr aliceVideosDir_id), (PBool false).
      split; [reflexivity|].
      rewrite (query_directory_info_walk 3 G "aliceVideosDirectory"
                 (nth 3 (vertices G) Samples.alice) (PStr aliceVideosDir_id) (PBool false)
                 [nth 5 (vertices G) Samples.alice]);
        [reflexivity| |reflexivity].
      repeat split. unfold database.resource. cbn.
      rewrite Eba, Epa, String.eqb_refl. reflexivity.
    + exists (nth 4 (vertices G) Samples.alice), [nth 5 (vertices G) Samples.alice],
        (PStr bobVideosDir_id), (PBool false).
      split; [reflexivity|].
      rewrite (query_directory_info_walk 3 G "bobVideosDirectory"
                 (nth 4 (vertices G) Samples.alice) (PStr bobVideosDir_id) (PBool false)
                 [nth 5 (vertices G) Samples.alice]);
        [reflexivity| |reflexivity].
      repeat split. unfold database.resource. cbn.
      rewrite Eab, Epb, String.eqb_refl. reflexivity.
  - apply Forall_cons; [|apply Forall_cons; [|apply Forall_nil]].
    + exists (nth 6 (vertices G) Samples.alice),
        [nth 3 (vertices G) Samples.alice; nth 5 (vertices G) Samples.alice],
        (PStr aliceCatVideo_id), (PBool false).
      split; [reflexivity|].
      rewrite (query_video_info_walk 3 G "aliceCatVideo.mp4"
                 (nth 6 (vertices G) Samples.alice) (PStr aliceCatVideo_id) (PBool false)
                 [nth 5 (vertices G) Samples.alice]);
        [reflexivity| |reflexivity].
      repeat split. unfold database.resource. cbn.
      rewrite Edc, String.eqb_refl. reflexivity.
    + exists (nth 7 (vertices G) Samples.alice),
        [nth 4 (vertices G) Samples.alice; nth 5 (vertices G) Samples.alice],
        (PStr bobDogVideo_id), (PBool false).
      split; [reflexivity|].
      rewrite (query_video_info_walk 3 G "bobDogVideo.mp4"
                 (nth 7 (vertices G) Samples.alice) (PStr bobDogVideo_id) (PBool false)
                 [nth 5 (vertices G) Samples.alice]);
        [reflexivity| |reflexivity].
      repeat split. unfold database.resource. cbn.
      rewrite Ecd, String.eqb_refl. reflexivity.
Qed.

Lemma seeded_closure_witness :
  Forall (directory_closure 3 Samples.bootstrap)
         ["petVideosDirectory"; "aliceVideosDirectory"; "bobVideosDirectory"]
  /\ Forall (video_closure 3 Samples.bootstrap) ["aliceCatVideo.mp4"; "bobDogVideo.mp4"].
Proof.
  apply (seeded_closure "dir-pet" "dir-alice" "dir-bob" "vid-cat" "vid-dog"
                        "pool|alice" "pool|bob" "pool|charlie"); discriminate.
Defined.

(** ** The helper Lambda *)

Lemma getitem_present (items : list (string * string)) (key : string) :
  get key items <> None -> exists v, getitem items key = Ok v.
Proof. unfold getitem. destruct (get key items) as [v|]; [eauto|contradiction]. Qed.

Lemma get_setitem {A} (key : string) (v : A) (items : list (string * A)) :
  get key (setitem key v items) = Some v.
Proof.
  induction items as [|[k w] items IH]; cbn [setitem get].
  - now rewrite String.eqb_refl.
  - destruct (String.eqb k key) eqn:E; cbn [get]; now rewrite E.
Qed.

Lemma get_setitem_other {A} (key key' : string) (v : A) (items : list (string * A)) :
  key' <> key -> get key' (setitem key v items) = get key' items.
Proof.
  intros Hneq. induction items as [|[k w] items IH]; cbn [setitem get].
  - destruct (String.eqb key key') eqn:E; [|reflexivity].
    apply String.eqb_eq in E. congruence.
  - destruct (String.eqb k key) eqn:E; cbn [get]; [|now rewrite IH].
    apply String.eqb_eq in E. subst k.
    destruct (String.eqb key key') eqn:E'; [|reflexivity].
    apply String.eqb_eq in E'. congruence.
Qed.

(** X17: the custom-resource helper.  [create] reads its seven properties
    before it calls anything: if one is missing it raises KeyError for a
    missing one and makes no call.  With all seven present it updates the
    user-pool client first (the client and pool named by the properties);
    if that fails, the exception is raised again and the Lambda
    configuration is not touched; if the second update fails, its exception
    is raised after both calls; otherwise both calls are made, in this order,
    and [Result] is set to Success in the helper's data, the rest of which
    is kept. *)
Theorem helper_create (update_user_pool_client update_function_configuration
                         : pyval -> exn + unit)
        (event : helper.event) (Data : list (string * string)) :
  ((exists key, In key helper.properties /\ get key (helper.ResourceProperties event) = None) ->
   exists key, In key helper.properties
               /\ get key (helper.ResourceProperties event) = None
               /\ helper.create update_user_pool_client update_function_configuration
                                event Data
                  = ([], Raise (KeyError key)))
  /\ ((forall key, In key helper.properties ->
                   get key (helper.ResourceProperties event) <> None) ->
      exists items items',
        helper.create update_user_pool_client update_function_configuration event Data
        = match update_user_pool_client (PyDict items) with
          | inl e => ([helper.UpdateUserPoolClient (PyDict items)], Raise e)
          | inr _ =>
              ([helper.UpdateUserPoolClient (PyDict items);
                helper.UpdateFunctionConfiguration (PyDict items')],
               match update_function_configuration (PyDict items') with
               | inl e => Raise e
               | inr _ => Ok (setitem "Result" "Success" Data)
               end)
          end
        /\ get "ClientId" items
           = option_map PyStr (get "ClientID" (helper.ResourceProperties event))
        /\ get "UserPoolId" items
           = option_map PyStr (get "cupid" (helper.ResourceProperties event))
        /\ get "FunctionName" items'
           = option_map PyStr (get "LambdaName" (helper.ResourceProperties event)))
  /\ (get "Result" (setitem "Result" "Success" Data) = Some "Success"
      /\ forall key, key <> "Result" ->
                     get key (setitem "Result" "Success" Data) = get key Data).
Proof.
  split; [|split].
  - intros (key & Hin & Hnone). unfold helper.create, getitem.
    destruct (get "ClientID" (helper.ResourceProperties event)) eqn:H1; cbn [res_bind];
      [|exists "ClientID"; cbn; tauto].
    destruct (get "cupid" (helper.ResourceProperties event)) eqn:H2; cbn [res_bind];
      [|exists "cupid"; cbn; tauto].
    destruct (get "LoginURL" (helper.ResourceProperties event)) eqn:H3; cbn [res_bind];
      [|exists "LoginURL"; cbn; tauto].
    destruct (get "LambdaName" (helper.ResourceProperties event)) eqn:H4; cbn [res_bind];
      [|exists "LambdaName"; cbn; tauto].
    destruct (get "CUP_CLIENT_ID" (helper.ResourceProperties event)) eqn:H5; cbn [res_bind];
      [|exists "CUP_CLIENT_ID"; cbn; tauto].
    destruct (get "CUP_CLIENT_SECRET" (helper.ResourceProperties event)) eqn:H6;
      cbn [res_bind]; [|exists "CUP_CLIENT_SECRET"; cbn; tauto].
    destruct (get "CUP_DOMAIN" (helper.ResourceProperties event)) eqn:H7; cbn [res_bind];
      [|exists "CUP_DOMAIN"; cbn; tauto].
    exfalso. cbn [helper.properties In] in Hin.
    repeat (destruct Hin as [<-|Hin]; [congruence|]). contradiction.
  - intros Hall. unfold helper.create, getitem.
    destruct (get "ClientID" (helper.ResourceProperties event)) as [client_id|] eqn:H1;
      [|exfalso; apply (Hall "ClientID"); cbn; tauto].
    destruct (get "cupid" (helper.ResourceProperties event)) as [user_pool_id|] eqn:H2;
      [|exfalso; apply (Hall "cupid"); cbn; tauto].
    destruct (get "LoginURL" (helper.ResourceProperties event)) as [login_url|] eqn:H3;
      [|exfalso; apply (Hall "LoginURL"); cbn; tauto].
    destruct (get "LambdaName" (helper.ResourceProperties event)) as [lambda_name|] eqn:H4;
      [|exfalso; apply (Hall "LambdaName"); cbn; tauto].
    destruct (get "CUP_CLIENT_ID" (helper.ResourceProperties event)) as [cup_client_id|]
      eqn:H5; [|exfalso; apply (Hall "CUP_CLIENT_ID"); cbn; tauto].
    destruct (get "CUP_CLIENT_SECRET" (helper.ResourceProperties event))
      as [cup_client_secret|] eqn:H6;
      [|exfalso; apply (Hall "CUP_CLIENT_SECRET"); cbn; tauto].
    destruct (get "CUP_DOMAIN" (helper.ResourceProperties event)) as [cup_domain|] eqn:H7;
      [|exfalso; apply (Hall "CUP_DOMAIN"); cbn; tauto].
    cbn [res_bind].
    match goal with
    | |- context [update_user_pool_client (PyDict ?i)] =>
        match goal with
        | |- context [update_function_configuration (PyDict ?i')] => exists i, i'
        end
    end.
    split; [|repeat split].
    destruct (update_user_pool_client _); [reflexivity|].
    destruct (update_function_configuration _); reflexivity.
  - split; [apply get_setitem|]. intros key Hkey. now apply get_setitem_other.
Qed.

(** ** More on permissions.py *)

Lemma attribute_value_convertible (v : pyval) :
  convertible v = true -> exists x, permissions.attribute_value v = Ok x.
Proof. intros H. pose proof (attribute_value_outcome v) as Ho. now rewrite H in Ho. Qed.

Lemma attribute_value_not_convertible (v : pyval) :
  convertible v = false -> exists msg, permissions.attribute_value v = Raise (ValueError msg).
Proof. intros H. pose proof (attribute_value_outcome v) as Ho. now rewrite H in Ho. Qed.

(** X18: [attributes] converts each keyword argument with [attribute_value]
    and keeps the keys and their order; it raises ValueError exactly when
    one of the values is not convertible, and then returns nothing. *)
Theorem attributes_outcome (kwargs : list (string * pyval)) :
  (forallb (fun kv => convertible (snd kv)) kwargs = true ->
   exists xs,
     permissions.attributes kwargs = Ok xs
     /\ map fst xs = map fst kwargs
     /\ Forall2 (fun kv x => permissions.attribute_value (snd kv) = Ok (snd x)) kwargs xs)
  /\ ((exists msg, permissions.attributes kwargs = Raise (ValueError msg))
      <-> forallb (fun kv => convertible (snd kv)) kwargs = false).
Proof.
  induction kwargs as [|[key value] kwargs [IHok IHraise]];
    cbn [permissions.attributes forallb snd].
  - split.
    + intros _. exists []. repeat split. constructor.
    + split; [intros [msg H]; discriminate H|discriminate].
  - split.
    + intros H. apply andb_true_iff in H. destruct H as [Hv Hrest].
      destruct (attribute_value_convertible value Hv) as [x Hx].
      destruct (IHok Hrest) as (xs & Hxs & Hkeys & Heach).
      exists ((key, x) :: xs). rewrite Hx, Hxs. cbn [res_bind map fst].
      repeat split; [now rewrite Hkeys|]. constructor; [exact Hx|exact Heach].
    + destruct (convertible value) eqn:Hv; cbn [andb].
      * destruct (attribute_value_convertible value Hv) as [x Hx]. rewrite Hx.
        cbn [res_bind]. rewrite <- IHraise. split.
        -- intros [msg H]. destruct (permissions.attributes kwargs); try discriminate H.
           inversion H. now exists msg.
        -- intros [msg H]. rewrite H. now exists msg.
      * destruct (attribute_value_not_convertible value Hv) as [msg Hmsg]. rewrite Hmsg.
        cbn [res_bind]. split; [reflexivity|]. intros _. now exists msg.
Qed.

(** X19: one decision request per permission check.  For a resource
    argument that is None, or a record whose [isPublic] holds a string or a
    boolean (the values of [propval]; [attribute_value] raises on a value of
    any other type, before any request), each check submits exactly one
    request, which carries the policy store, the identity token and the
    action it was given, and has an [entities] block exactly when there is a
    resource; the check then raises only what the engine raises, and returns
    the engine's decision and determining policies as they are. *)
Theorem permissions_check_one_request (P : string) (avp : pyval -> exn + avp_response)
        (token action : string) (video_dir : option Directory.t) (video : option Video.t) :
  (exists args,
      permissions.permissions_check_token_directory P avp token action video_dir
      = ([IsAuthorizedWithToken (PyDict args)], of_sum (avp (PyDict args)))
      /\ get "policyStoreId" args = Some (PyStr P)
      /\ get "identityToken" args = Some (PyStr token)
      /\ get "action" args
         = Some (PyDict [("actionType", PyStr "PetVideosApp::Action");
                         ("actionId", PyStr action)])
      /\ (get "entities" args = None <-> video_dir = None))
  /\ (exists args,
         permissions.permissions_check_token_video P avp token action video
         = ([IsAuthorizedWithToken (PyDict args)], of_sum (avp (PyDict args)))
         /\ get "policyStoreId" args = Some (PyStr P)
         /\ get "identityToken" args = Some (PyStr token)
         /\ get "action" args
            = Some (PyDict [("actionType", PyStr "PetVideosApp::Action");
                            ("actionId", PyStr action)])
         /\ (get "entities" args = None <-> video = None)).
Proof.
  split.
  - destruct video_dir as [d|].
    + rewrite permissions_check_token_directory_some. unfold directory_request.
      eexists. split; [reflexivity|]. repeat split; try discriminate.
    + rewrite permissions_check_token_directory_none. unfold placeholder_request.
      eexists. split; [reflexivity|]. repeat split.
  - destruct video as [v|].
    + rewrite permissions_check_token_video_some. unfold video_request.
      eexists. split; [reflexivity|]. repeat split; try discriminate.
    + rewrite permissions_check_token_video_none. unfold placeholder_request.
      eexists. split; [reflexivity|]. repeat split.
Qed.


